(** * jcvi.formats.bed: BED interval records and collections

    A shallow embedding of [src/formats/bed.py] (Python 2) and the
    verification of its specification: parsing and serialising a
    [BedLine], the reverse complement of a record, and the views of a
    [Bed] collection (sorting, grouping, order index, covered length). *)

From Stdlib Require Import ZArith String Ascii List Permutation.
From Stdlib Require Import DecimalString DecimalZ.
From stdpp Require Import base tactics option list list_numbers sorting.
From stdpp Require Import gmap sets strings.

Local Open Scope string_scope.

(** ** Python values used by the module *)

(** Exceptions the code can raise.  [AssertionError] carries the message
    of the [assert] statement; [External] stands for a failure raised by
    a collaborator (the size lookup, opening a file). *)
Inductive exn : Type :=
  | IndexError
  | ValueError
  | KeyError
  | TypeError
  | AssertionError (msg : string)
  | External (what : string).

Inductive result (A : Type) : Type :=
  | Ok (a : A)
  | Raise (e : exn).
Arguments Ok {A} a.
Arguments Raise {A} e.

Global Instance result_ret : MRet result := @Ok.
Global Instance result_bind : MBind result := fun A B f m =>
  match m with
  | Ok a => f a
  | Raise e => Raise e
  end.

Global Instance exn_eq_dec : EqDecision exn.
Proof. solve_decision. Defined.

Module Py.

Definition tab : ascii := "009"%char.
Definition dash : ascii := "-"%char.
Definition hash : ascii := "#"%char.
Definition tab_s : string := String tab "".

(** [str.lstrip()], [str.rstrip()], [str.strip()] without argument
    remove the six blank characters of the C locale, which are the
    ones [Ascii.is_space] recognises. *)
Fixpoint lstrip_with (p : ascii → bool) (s : string) : string :=
  match s with
  | "" => ""
  | String a s' => if p a then lstrip_with p s' else s
  end.

Fixpoint rstrip_with (p : ascii → bool) (s : string) : string :=
  match s with
  | "" => ""
  | String a s' =>
      match rstrip_with p s' with
      | "" => if p a then "" else String a ""
      | r => String a r
      end
  end.

Definition strip (s : string) : string :=
  rstrip_with Ascii.is_space (lstrip_with Ascii.is_space s).

(** [s.rstrip('-')] *)
Definition rstrip_dash (s : string) : string :=
  rstrip_with (Ascii.eqb dash) s.

(** [s.split(sep)] for a single separator character: never empty,
    empty fields are kept. *)
Fixpoint split (sep : ascii) (s : string) : list string :=
  match s with
  | "" => [""]
  | String a s' =>
      if Ascii.eqb a sep then "" :: split sep s'
      else match split sep s' with
           | [] => [String a ""]
           | w :: ws => String a w :: ws
           end
  end.

(** [sep.join(l)] *)
Fixpoint join (sep : string) (l : list string) : string :=
  match l with
  | [] => ""
  | x :: l' =>
      match l' with
      | [] => x
      | _ => x +:+ sep +:+ join sep l'
      end
  end.

(** [l[i]] on a list, raising [IndexError] out of range. *)
Definition index {A} (l : list A) (i : nat) : result A :=
  match l !! i with
  | Some x => Ok x
  | None => Raise IndexError
  end.

(** [s[-1]], the last character of a string. *)
Fixpoint last_char (s : string) : result ascii :=
  match s with
  | "" => Raise IndexError
  | String a "" => Ok a
  | String _ s' => last_char s'
  end.

(** [s[0]] *)
Definition first_char (s : string) : result ascii :=
  match s with
  | "" => Raise IndexError
  | String a _ => Ok a
  end.

(** [s[:-1]] *)
Fixpoint drop_last (s : string) : string :=
  match s with
  | "" => ""
  | String _ "" => ""
  | String a s' => String a (drop_last s')
  end.

(** [str(n)] of an integer: decimal digits, a minus sign for negative
    numbers, no leading zero. *)
Definition str (n : Z) : string := NilZero.string_of_int (Z.to_int n).

(** [int(s)] of Python 2 on a byte string: blanks around the literal
    are skipped, one sign is allowed, blanks between the sign and the
    digits are skipped as well (a Python 2 peculiarity), then one or
    more decimal digits must fill the rest. *)
Definition int (s : string) : result Z :=
  let t := strip s in
  let digits (neg : bool) (d : string) : result Z :=
    match NilZero.uint_of_string d with
    | Some u => Ok (if neg then (- Z.of_uint u)%Z else Z.of_uint u)
    | None => Raise ValueError
    end in
  match t with
  | String "+" r => digits false (lstrip_with Ascii.is_space r)
  | String "-" r => digits true (lstrip_with Ascii.is_space r)
  | _ => digits false t
  end.

(** Every character of [s] satisfies [p]. *)
Fixpoint all_chars (p : ascii → bool) (s : string) : bool :=
  match s with
  | "" => true
  | String a s' => p a && all_chars p s'
  end.

Definition is_digit (a : ascii) : bool := bool_decide (is_Some (Ascii.is_nat a)).

(** Truth value of an optional string: [None] and [''] are false. *)
Definition truthy (o : option string) : bool :=
  match o with
  | Some (String _ _) => true
  | _ => false
  end.

End Py.

(** ** BedLine *)

Record BedLine : Type := mkBedLine {
  seqid : string;
  start : Z;
  end_ : Z;
  accn : string;
  extra : option (list string);
  score : option string;
  strand : option string
}.

Global Instance BedLine_eq_dec : EqDecision BedLine.
Proof. solve_decision. Defined.

(** The message of both [assert] statements:
    ["start={0} end={1}".format(self.start, self.end)]. *)
Definition coord_msg (s e : Z) : string :=
  "start=" +:+ Py.str s +:+ " end=" +:+ Py.str e.

Definition py_assert (b : bool) (msg : string) : result unit :=
  if b then Ok tt else Raise (AssertionError msg).

(** [BedLine.__init__(sline)].  The statements are kept in the order of
    the source, which decides the exception raised first;
    [split_line sline] is [sline.strip().split("\t")]. *)
Definition split_line (sline : string) : list string :=
  Py.split Py.tab (Py.strip sline).

Definition BedLine_init (sline : string) : result BedLine :=
  let args := split_line sline in
  a0 ← Py.index args 0;
  a1 ← Py.index args 1;
  n1 ← Py.int a1;
  let start := (n1 + 1)%Z in
  a2 ← Py.index args 2;
  end_ ← Py.int a2;
  _ ← py_assert (start <=? end_)%Z (coord_msg start end_);
  a3 ← Py.index args 3;
  let extra := if decide (4 < length args) then Some (drop 4 args) else None in
  let score := if decide (4 < length args) then extra ≫= (.!! 0) else None in
  let strand := if decide (5 < length args) then extra ≫= (.!! 1) else None in
  Ok (mkBedLine a0 start end_ a3 extra score strand).

(** [BedLine.__str__] *)
Definition BedLine_str (self : BedLine) : string :=
  let s := Py.join Py.tab_s
             [seqid self; Py.str (start self - 1); Py.str (end_ self); accn self] in
  match extra self with
  | Some (x :: xs) => s +:+ Py.tab_s +:+ Py.join Py.tab_s (x :: xs)
  | _ => s
  end.

(** A line made of the given columns. *)
Definition tsv (cols : list string) : string := Py.join Py.tab_s cols.

(** The same line as a file holds it, with its end of line. *)
Definition file_line (cols : list string) : string :=
  tsv cols +:+ String "010" "".

(** *** In-place methods

    A method that assigns to the fields of [self] is a computation over
    the record: it returns a value or raises, and in both cases leaves
    the record as the assignments executed so far have made it. *)
Definition method (A : Type) : Type := BedLine → result A * BedLine.

Global Instance method_ret : MRet method := fun A a self => (Ok a, self).
Global Instance method_bind : MBind method := fun A B f m self =>
  match m self with
  | (Ok a, self') => f a self'
  | (Raise e, self') => (Raise e, self')
  end.

Definition read {A} (f : BedLine → A) : method A :=
  fun self => (Ok (f self), self).
Definition assign (f : BedLine → BedLine) : method unit :=
  fun self => (Ok tt, f self).
Definition eval {A} (r : result A) : method A :=
  fun self => (r, self).

Definition set_seqid (v : string) (b : BedLine) : BedLine :=
  mkBedLine v (start b) (end_ b) (accn b) (extra b) (score b) (strand b).
Definition set_coords (s e : Z) (b : BedLine) : BedLine :=
  mkBedLine (seqid b) s e (accn b) (extra b) (score b) (strand b).
Definition set_strand (v : option string) (b : BedLine) : BedLine :=
  mkBedLine (seqid b) (start b) (end_ b) (accn b) (extra b) (score b) v.
Definition set_extra (v : option (list string)) (b : BedLine) : BedLine :=
  mkBedLine (seqid b) (start b) (end_ b) (accn b) v (score b) (strand b).

(** [{'+': '-', '-': '+'}[s]] *)
Definition flip_strand (s : string) : result string :=
  if decide (s = "+") then Ok "-"
  else if decide (s = "-") then Ok "+"
  else Raise KeyError.

(** [self.extra[1] = v]: [None] does not support item assignment, a
    list shorter than two raises [IndexError]. *)
Definition store_extra_1 (v : string) : method unit := fun self =>
  match extra self with
  | None => (Raise TypeError, self)
  | Some ex =>
      if decide (1 < length ex)
      then (Ok tt, set_extra (Some (<[1 := v]> ex)) self)
      else (Raise IndexError, self)
  end.

(** [BedLine.reverse_complement(sizes)].  [get_size] is the method of the
    [sizes] collaborator, which is not part of this module: it returns
    the length of a sequence or raises. *)
Definition reverse_complement (get_size : string → result Z) : method unit :=
  sid ← read seqid;
  let seqid0 := Py.rstrip_dash sid in
  size ← eval (get_size seqid0);
  c ← eval (Py.last_char sid);
  _ ← assign (set_seqid (if Ascii.eqb c Py.dash
                          then Py.drop_last sid else sid +:+ "-"));
  st ← read start;
  en ← read end_;
  let start' := (size - en + 1)%Z in
  let end' := (size - st + 1)%Z in
  _ ← assign (set_coords start' end');
  _ ← eval (py_assert (start' <=? end')%Z (coord_msg start' end'));
  sd ← read strand;
  if Py.truthy sd then
    strand' ← eval (flip_strand (default "" sd));
    _ ← assign (set_strand (Some strand'));
    store_extra_1 strand'
  else mret tt.

(** The orientation marker of a seqid is a trailing ['-']. *)
Definition has_marker (s : string) : bool :=
  match Py.last_char s with
  | Ok c => Ascii.eqb c Py.dash
  | Raise _ => false
  end.

(** The seqid with its marker, if any, removed. *)
Definition base_seqid (s : string) : string :=
  if has_marker s then Py.drop_last s else s.

(** The seqid with its marker toggled. *)
Definition toggle_marker (s : string) : string :=
  if has_marker s then Py.drop_last s else s +:+ "-".

(** A seqid carries at most one marker on a base name that is not empty:
    it is neither ["-"] nor ends in ["--"]. *)
Definition single_marker (s : string) : Prop :=
  base_seqid s ≠ "" ∧ has_marker (base_seqid s) = false.

(** The seqid ends in exactly two markers. *)
Definition two_markers (s : string) : bool :=
  has_marker s && has_marker (Py.drop_last s) &&
  negb (has_marker (Py.drop_last (Py.drop_last s))).

(** [score] and [strand] are the first two extra columns, as
    [__init__] sets them. *)
Definition views_ok (b : BedLine) : Prop :=
  score b = extra b ≫= (.!! 0) ∧ strand b = extra b ≫= (.!! 1).

(** The strand is unset, ['+'] or ['-']. *)
Definition strand_ok (b : BedLine) : Prop :=
  strand b = None ∨ strand b = Some "+" ∨ strand b = Some "-".

(** A size lookup that knows one sequence. *)
Definition one_size (name : string) (size : Z) (s : string) : result Z :=
  if decide (s = name) then Ok size else Raise (External "NotFound").

(** ** Bed *)

(** [list.sort(key=...)] and [sorted(...)]: the built-in sort is stable
    and compares keys with [<] only.  Over a total preorder every stable
    sort returns the same list, so the stable insertion sort stands for
    it; [leb a b] is [not (b < a)]. *)
Section Sort.
Context {A K : Type} (leb : K → K → bool) (key : A → K).

Fixpoint insert_by (x : A) (l : list A) : list A :=
  match l with
  | [] => [x]
  | y :: l' =>
      if leb (key x) (key y) then x :: l else y :: insert_by x l'
  end.

Definition sort_by (l : list A) : list A := foldr insert_by [] l.
End Sort.

(** [sorted(l)] on strings *)
Definition sorted (l : list string) : list string := sort_by String.leb id l.

(** The default key [lambda x: (x.seqid, x.start, x.accn)] and the order
    of Python tuples on it. *)
Definition default_key (x : BedLine) : string * Z * string :=
  (seqid x, start x, accn x).

Definition tuple_leb (a b : string * Z * string) : bool :=
  let '(s1, n1, a1) := a in
  let '(s2, n2, a2) := b in
  match String.compare s1 s2 with
  | Lt => true
  | Gt => false
  | Eq =>
      match Z.compare n1 n2 with
      | Lt => true
      | Gt => false
      | Eq => String.leb a1 a2
      end
  end.

(** The same order as a proposition: ascending on the seqid, then on the
    start, then on the accn. *)
Definition tuple_le (a b : string * Z * string) : Prop :=
  String.le a.1.1 b.1.1 ∧
  (a.1.1 = b.1.1 → (a.1.2 ≤ b.1.2)%Z ∧ (a.1.2 = b.1.2 → String.le a.2 b.2)).

(** The loop of [Bed.__init__]: comment lines are skipped, every other
    line is parsed and appended, the first failure ends the loop. *)
Fixpoint load_lines (lines : list string) : result (list BedLine) :=
  match lines with
  | [] => Ok []
  | line :: rest =>
      c ← Py.first_char line;
      if Ascii.eqb c Py.hash then load_lines rest
      else
        b ← BedLine_init line;
        bs ← load_lines rest;
        Ok (b :: bs)
  end.

Section Loading.
Context {K : Type} (leb : K → K → bool).
(** [open(filename)], read line by line; a collaborator. *)
Context (open : string → result (list string)).

(** [Bed.__init__(filename, key)] with a key given; the collection is
    the list part of the object. *)
Definition Bed_init (filename : option string) (key : BedLine → K)
  : result (list BedLine) :=
  if Py.truthy filename then
    lines ← open (default "" filename);
    bs ← load_lines lines;
    Ok (sort_by leb key bs)
  else Ok [].

(** The records of the file, in the order of its lines. *)
Definition loaded (filename : option string) (recs : list BedLine) : Prop :=
  if Py.truthy filename
  then ∃ lines, open (default "" filename) = Ok lines ∧
                load_lines lines = Ok recs
  else recs = [].
End Loading.

(** [Bed(filename)]: no key, the default one is used. *)
Definition Bed_init_default (open : string → result (list string))
    (filename : option string) : result (list BedLine) :=
  Bed_init tuple_leb open filename default_key.

(** Modelled from the spec: [jcvi.utils.range.range_union], imported by
    the module, is not among the sources.  Following the algorithm of
    the design: the intervals are grouped by seqid; each group is sorted
    by start, then end; one sweep keeps a current merged interval
    [cs, ce], which the next interval extends when its start is at most
    [ce + 1], and whose length is otherwise added to the total before the
    next interval becomes the current one; the last interval is flushed
    at the end of the group. *)
Fixpoint sweep (cs ce : Z) (l : list (Z * Z)) (total : Z) : Z :=
  match l with
  | [] => (total + (ce - cs + 1))%Z
  | (s, e) :: l' =>
      if (s <=? ce + 1)%Z then sweep cs (Z.max ce e) l' total
      else sweep s e l' (total + (ce - cs + 1))%Z
  end.

(** Modelled from the spec: the order of the intervals of a group, by
    start, ties broken by end. *)
Definition pair_leb (a b : Z * Z) : bool :=
  match Z.compare a.1 b.1 with
  | Lt => true
  | Gt => false
  | Eq => (a.2 <=? b.2)%Z
  end.

(** Modelled from the spec: the total of one group, sorted and swept
    from its first interval; an empty group counts for nothing. *)
Definition group_union (l : list (Z * Z)) : Z :=
  match sort_by pair_leb id l with
  | [] => 0%Z
  | (s, e) :: l' => sweep s e l' 0
  end.

(** Modelled from the spec: the intervals of the triples of one seqid. *)
Definition group_of (s : string) (ranges : list (string * Z * Z)) : list (Z * Z) :=
  (λ r, (r.1.2, r.2)) <$> filter (λ r, r.1.1 = s) ranges.

(** Modelled from the spec: [range_union(ranges)], the totals of the
    groups of the distinct seqids added up. *)
Definition range_union (ranges : list (string * Z * Z)) : Z :=
  let ids := elements (list_to_set ((λ r, r.1.1) <$> ranges) : gset string) in
  foldr Z.add 0%Z ((λ s, group_union (group_of s ranges)) <$> ids).

(** *** The views of a collection *)

(** [enumerate(self)] *)
Definition enumerate {A} (l : list A) : list (nat * A) := imap pair l.

Definition Bed_sum (self : list BedLine) : Z :=
  let ranges := (λ x, (seqid x, start x, end_ x)) <$> self in
  range_union ranges.

Definition Bed_seqids (self : list BedLine) : list string :=
  sorted (elements (list_to_set (seqid <$> self) : gset string)).

Definition Bed_accns (self : list BedLine) : list string :=
  sorted (elements (list_to_set (accn <$> self) : gset string)).

(** [dict(...)] of a sequence of pairs inserts them from left to right. *)
Definition Bed_order (self : list BedLine) : gmap string (nat * BedLine) :=
  foldl (λ d p, <[accn p.2 := (p.1, p.2)]> d) ∅ (enumerate self).

Definition Bed_simple_bed (self : list BedLine) : list (string * nat) :=
  (λ p, (seqid p.2, p.1)) <$> enumerate self.

Definition Bed_sub_bed (self : list BedLine) (s : string) : list BedLine :=
  filter (λ b, seqid b = s) self.

Definition Bed_sub_beds (self : list BedLine) : list (string * list BedLine) :=
  (λ bs, (bs, Bed_sub_bed self bs)) <$> Bed_seqids self.

(** The positions of the closed interval [s, e], and the positions that
    the records of one seqid cover. *)
Definition positions (s e : Z) : gset Z := list_to_set (seqZ s (e - s + 1)).

Definition span (p : Z * Z) : gset Z := positions p.1 p.2.

Definition covered (self : list BedLine) (s : string) : gset Z :=
  ⋃ ((λ b, positions (start b) (end_ b)) <$> Bed_sub_bed self s).




(** ** Writing a collection and reading it back *)

Definition nl : ascii := "010"%char.

(** [Bed.print_to_file(fw)]: the text written to [fw]; each
    [print >> fw, bedline] writes [str(bedline)] and an end of line. *)
Fixpoint Bed_print_to_file (self : list BedLine) : string :=
  match self with
  | [] => ""
  | bedline :: rest =>
      BedLine_str bedline +:+ String nl (Bed_print_to_file rest)
  end.

(** [for line in open(filename)]: the lines of the text, each with its
    end of line; the last one has none when the text does not end in
    one. *)
Fixpoint file_lines (content : string) : list string :=
  match content with
  | "" => []
  | String a s =>
      if Ascii.eqb a nl then String a "" :: file_lines s
      else match file_lines s with
           | [] => [String a ""]
           | l :: ls => String a l :: ls
           end
  end.

(** [line[0] == "#"] *)
Definition is_comment (line : string) : bool :=
  match Py.first_char line with
  | Ok c => Ascii.eqb c Py.hash
  | Raise _ => false
  end.

(** The character [c] does not occur in [s]. *)
Definition no_char (c : ascii) (s : string) : bool :=
  Py.all_chars (λ a, negb (Ascii.eqb a c)) s.

(** [s] starts, respectively ends, with a character that is not blank. *)
Definition clean_head (s : string) : bool :=
  match s with
  | String a _ => negb (Ascii.is_space a)
  | "" => false
  end.

Definition clean_tail (s : string) : bool :=
  match Py.last_char s with
  | Ok a => negb (Ascii.is_space a)
  | Raise _ => false
  end.

(** The text columns of a record, and the columns [__str__] prints. *)
Definition text_fields (r : BedLine) : list string :=
  seqid r :: accn r :: default [] (extra r).

Definition columns (r : BedLine) : list string :=
  [seqid r; Py.str (start r - 1); Py.str (end_ r); accn r]
    ++ default [] (extra r).

(** A record that one line can hold: its coordinates are in order, its
    score and strand are its first two extra columns, [extra] is not the
    empty list, no column holds a tab, the seqid starts and the last
    column ends with a character that is not blank. *)
Definition printable (r : BedLine) : Prop :=
  (start r ≤ end_ r)%Z ∧ views_ok r ∧ extra r ≠ Some [] ∧
  Forall (λ s, no_char Py.tab s) (text_fields r) ∧
  clean_head (seqid r) ∧
  from_option clean_tail false (last (accn r :: default [] (extra r))).

(** A record that a file can hold: moreover no column holds an end of
    line and the seqid does not start with the comment character. *)
Definition storable (r : BedLine) : Prop :=
  printable r ∧
  Forall (λ s, no_char nl s) (text_fields r) ∧
  is_comment (seqid r) = false.

(** ** The [sort] command *)

(** The part of [s] after, respectively before, the last [sep];
    nothing when [sep] does not occur. *)
Fixpoint after_last (sep : ascii) (s : string) : option string :=
  match s with
  | "" => None
  | String a s' =>
      match after_last sep s' with
      | Some t => Some t
      | None => if Ascii.eqb a sep then Some s' else None
      end
  end.

Fixpoint before_last (sep : ascii) (s : string) : option string :=
  match s with
  | "" => None
  | String a s' =>
      match before_last sep s' with
      | Some h => Some (String a h)
      | None => if Ascii.eqb a sep then Some "" else None
      end
  end.

(** [os.path.basename(p)], which is [p[p.rfind('/') + 1:]]. *)
Definition basename (p : string) : string := default p (after_last "/" p).

(** [s.rsplit(".", 1)[0]] *)
Definition rsplit_dot_head (s : string) : string :=
  default s (before_last "." s).

(** [sort(args)] once [parse_args] has given the one file name and the
    two options: the command handed to [sh] and the name returned. *)
Definition sort_command (bedfile : string) (inplace accn : bool)
  : string * string :=
  let sortedbed := rsplit_dot_head (basename bedfile) +:+ ".sorted.bed" in
  let sortedbed := if inplace then bedfile else sortedbed in
  let sortopt := if negb accn then "-k1,1 -k2,2n -k4,4"
                 else "-k4,4 -k1,1 -k2,2n" in
  let cmd := "sort " +:+ sortopt +:+ " " +:+ bedfile in
  let cmd := cmd +:+ " -o " +:+ sortedbed in
  (cmd, sortedbed).

(** * Verification *)

(** ** Strings *)

Lemma app_String a (s t : string) : String a s +:+ t = String a (s +:+ t).
Proof. done. Qed.

Lemma app_assoc_s (s t u : string) : (s +:+ t) +:+ u = s +:+ t +:+ u.
Proof. induction s as [|a s IH]; [done|]. by rewrite !app_String, IH. Qed.

Lemma app_nil_r_s (s : string) : s +:+ "" = s.
Proof. induction s as [|a s IH]; [done|]. by rewrite app_String, IH. Qed.

Lemma split_not_nil sep s : Py.split sep s ≠ [].
Proof.
  destruct s as [|a s]; simpl; [done|].
  destruct (Ascii.eqb a sep); [done|].
  by destruct (Py.split sep s).
Qed.

Lemma join_cons sep x y l :
  Py.join sep (x :: y :: l) = x +:+ sep +:+ Py.join sep (y :: l).
Proof. done. Qed.

Lemma join_String sep a w ws :
  Py.join sep (String a w :: ws) = String a (Py.join sep (w :: ws)).
Proof. by destruct ws. Qed.

(** Joining the fields of a line with the separator gives the line back. *)
Lemma join_split s : Py.join Py.tab_s (Py.split Py.tab s) = s.
Proof.
  induction s as [|a s IH]; simpl; [done|].
  destruct (Ascii.eqb a Py.tab) eqn:Ha.
  - apply Ascii.eqb_eq in Ha as ->.
    destruct (Py.split Py.tab s) as [|w ws] eqn:Hs; [by apply split_not_nil in Hs|].
    rewrite join_cons, IH. done.
  - destruct (Py.split Py.tab s) as [|w ws] eqn:Hs; [by apply split_not_nil in Hs|].
    rewrite join_String, IH. done.
Qed.

Lemma join_app_ne sep (l1 l2 : list string) :
  l1 ≠ [] → l2 ≠ [] →
  Py.join sep (l1 ++ l2)%list = Py.join sep l1 +:+ sep +:+ Py.join sep l2.
Proof.
  intros H1 H2. induction l1 as [|x l1 IH]; [done|].
  destruct l1 as [|y l1].
  - destruct l2; done.
  - rewrite <- !app_comm_cons, !join_cons.
    rewrite app_comm_cons, IH by done.
    by rewrite !app_assoc_s.
Qed.

Lemma rstrip_with_id p s :
  Py.all_chars (λ a, negb (p a)) s → Py.rstrip_with p s = s.
Proof.
  induction s as [|a s IH]; simpl; [done|].
  intros [Ha Hs]%andb_True. rewrite IH by done.
  destruct s; [|done]. by destruct (p a).
Qed.

Lemma lstrip_with_id p s :
  Py.all_chars (λ a, negb (p a)) s → Py.lstrip_with p s = s.
Proof. destruct s as [|a s]; simpl; [done|]. intros [Ha _]%andb_True. by destruct (p a). Qed.

Lemma strip_id s :
  Py.all_chars (λ a, negb (Ascii.is_space a)) s → Py.strip s = s.
Proof. intros H. unfold Py.strip. by rewrite lstrip_with_id, rstrip_with_id. Qed.

Lemma all_chars_impl (p q : ascii → bool) s :
  (∀ a, p a → q a) → Py.all_chars p s → Py.all_chars q s.
Proof.
  intros Hpq. induction s as [|a s IH]; simpl; [done|].
  intros [??]%andb_True. apply andb_True. auto.
Qed.

Lemma digit_not_space a : Py.is_digit a → negb (Ascii.is_space a).
Proof.
  destruct a as [[] [] [] [] [] [] [] []]; vm_compute; tauto.
Qed.

Lemma string_of_uint_digits d : Py.all_chars Py.is_digit (NilEmpty.string_of_uint d).
Proof. induction d; simpl; done. Qed.

Lemma string_of_uint_nonnil d :
  d ≠ Decimal.Nil →
  ∃ a s, NilZero.string_of_uint d = String a s ∧
         Py.all_chars Py.is_digit (String a s).
Proof.
  intros Hd. pose proof (string_of_uint_digits d) as H.
  destruct d; [done|..]; simpl in *; eauto.
Qed.

Lemma int_unsigned a s :
  Py.is_digit a → Py.strip (String a s) = String a s →
  Py.int (String a s) =
    match NilZero.uint_of_string (String a s) with
    | Some u => Ok (Z.of_uint u)
    | None => Raise ValueError
    end.
Proof.
  intros Ha Hs. unfold Py.int. rewrite Hs.
  destruct a as [[] [] [] [] [] [] [] []]; vm_compute in Ha; done.
Qed.

(** [int] reads back what [str] prints. *)
Lemma int_str z : Py.int (Py.str z) = Ok z.
Proof.
  assert (Hp : ∀ p, Pos.to_uint p ≠ Decimal.Nil)
    by (intros p; apply DecimalPos.Unsigned.to_uint_nonnil).
  assert (Hns : ∀ t, Py.all_chars Py.is_digit t →
                     Py.all_chars (λ a, negb (Ascii.is_space a)) t)
    by (intros t; apply all_chars_impl, digit_not_space).
  rewrite <- (DecimalZ.of_to z) at 2.
  unfold Py.str. destruct z as [|p|p]; [done|..]; simpl Z.to_int;
    simpl NilZero.string_of_int; simpl Z.of_int;
    pose proof (NilZero.usu _ (Hp p)) as Hu;
    destruct (string_of_uint_nonnil _ (Hp p)) as (a & s & Hs & Hd);
    rewrite Hs in *.
  - rewrite int_unsigned, Hu; [done|by apply andb_True in Hd as [??]|].
    by apply strip_id, Hns.
  - assert (Py.all_chars (λ c, negb (Ascii.is_space c)) (String "-" (String a s))) as Hm.
    { change (Is_true (negb (Ascii.is_space "-") &&
                Py.all_chars (λ c, negb (Ascii.is_space c)) (String a s))).
      apply andb_True; split; [done|by apply Hns]. }
    unfold Py.int. rewrite (strip_id _ Hm).
    rewrite lstrip_with_id by by apply Hns.
    by rewrite Hu.
Qed.

(** ** Parsing and serialising a record *)

(** What [__init__] returns on a line with at least four columns whose
    coordinate columns are integers. *)
Lemma BedLine_init_columns line sid s1 s2 acc rest a b :
  split_line line = sid :: s1 :: s2 :: acc :: rest →
  Py.int s1 = Ok a → Py.int s2 = Ok b →
  BedLine_init line =
    if (a + 1 <=? b)%Z
    then Ok (mkBedLine sid (a + 1) b acc
               (match rest with [] => None | _ => Some rest end)
               (rest !! 0) (rest !! 1))
    else Raise (AssertionError (coord_msg (a + 1) b)).
Proof.
  intros Hc Ha Hb. unfold BedLine_init. rewrite Hc. simpl.
  rewrite Ha. simpl. rewrite Hb. simpl.
  destruct (a + 1 <=? b)%Z; simpl; [|done].
  destruct rest as [|x [|y rest]]; done.
Qed.

(** No record exists whose coordinates are out of order. *)
Lemma BedLine_init_ordered line r :
  BedLine_init line = Ok r → (start r ≤ end_ r)%Z.
Proof.
  unfold BedLine_init.
  destruct (Py.index _ 0); simpl; [|done].
  destruct (Py.index _ 1); simpl; [|done].
  destruct (Py.int _) as [n1|]; simpl; [|done].
  destruct (Py.index _ 2); simpl; [|done].
  destruct (Py.int _) as [n2|]; simpl; [|done].
  destruct (n1 + 1 <=? n2)%Z eqn:Hle; simpl; [|done].
  destruct (Py.index _ 3); simpl; [|done].
  intros [= <-]. simpl. lia.
Qed.

Lemma lstrip_with_head p s :
  match Py.lstrip_with p s with
  | "" => True
  | String a _ => p a = false
  end.
Proof.
  induction s as [|a s IH]; simpl; [done|].
  destruct (p a) eqn:Ha; [done|]. done.
Qed.

Lemma rstrip_with_head p a s :
  p a = false → ∃ r, Py.rstrip_with p (String a s) = String a r.
Proof.
  intros Ha. simpl. destruct (Py.rstrip_with p s); rewrite ?Ha; eauto.
Qed.

(** The first column of a trimmed line is empty only when the line is. *)
Lemma split_line_head line :
  split_line line = [""] ∨
  ∃ a w ws, split_line line = String a w :: ws.
Proof.
  unfold split_line, Py.strip.
  pose proof (lstrip_with_head Ascii.is_space line) as Hl.
  destruct (Py.lstrip_with Ascii.is_space line) as [|a s]; [by left|].
  destruct (rstrip_with_head _ a s Hl) as [r ->]. right.
  simpl. destruct (Ascii.eqb_spec a Py.tab) as [->|_]; [done|].
  destruct (Py.split Py.tab r) eqn:Hr; eauto.
Qed.

(** The seqid of a record is not empty. *)
Lemma BedLine_init_seqid line r : BedLine_init line = Ok r → seqid r ≠ "".
Proof.
  unfold BedLine_init.
  destruct (split_line_head line) as [->|(a & w & ws & ->)]; [done|].
  simpl.
  destruct (Py.index _ 1); simpl; [|done].
  destruct (Py.int _) as [n1|]; simpl; [|done].
  destruct (Py.index _ 2); simpl; [|done].
  destruct (Py.int _) as [n2|]; simpl; [|done].
  destruct (n1 + 1 <=? n2)%Z; simpl; [|done].
  destruct (Py.index _ 3); simpl; [|done].
  by intros [= <-].
Qed.

(** The trailing blanks of a line are trimmed before it is split: a last
    column that is empty is not a column. *)
Example BedLine_init_trailing_tab :
  split_line (file_line ["chr1"; "1"; "2"; ""]) = ["chr1"; "1"; "2"] ∧
  BedLine_init (file_line ["chr1"; "1"; "2"; ""]) = Raise IndexError.
Proof. split; reflexivity. Qed.

(** What [__str__] prints. *)
Lemma BedLine_str_fields r :
  BedLine_str r =
    Py.join Py.tab_s
      ([seqid r; Py.str (start r - 1); Py.str (end_ r); accn r]
         ++ default [] (extra r))%list.
Proof.
  unfold BedLine_str. destruct (extra r) as [[|x xs]|]; simpl default.
  - by rewrite app_nil_r.
  - by rewrite join_app_ne.
  - by rewrite app_nil_r.
Qed.

(** C1: on a line whose first four tab-separated columns are seqid, an
    integer file_start, an integer file_end and accn, [BedLine.__init__]
    builds the record with [start = file_start + 1] and [end = file_end]
    (as soon as the range is not empty), and every record it returns has
    these coordinates; the positions [z] of the half-open zero-based
    range [file_start, file_end) are the positions [z + 1] of the closed
    one-based range [start, end]. *)
Theorem parse_converts_coordinates line sid s1 s2 acc rest a b :
  split_line line = sid :: s1 :: s2 :: acc :: rest →
  Py.int s1 = Ok a → Py.int s2 = Ok b →
  ((a < b)%Z → ∃ r, BedLine_init line = Ok r) ∧
  (∀ r, BedLine_init line = Ok r →
        seqid r = sid ∧ start r = (a + 1)%Z ∧ end_ r = b ∧ accn r = acc ∧
        ∀ z, (a ≤ z < b)%Z ↔ (start r ≤ z + 1 ≤ end_ r)%Z).
Proof.
  intros Hc Ha Hb. rewrite (BedLine_init_columns _ _ _ _ _ _ _ _ Hc Ha Hb).
  split.
  - intros Hab. destruct (Z.leb_spec (a + 1) b); [eauto|lia].
  - intros r. destruct (a + 1 <=? b)%Z; [|done].
    intros [= <-]. simpl. repeat split; lia.
Qed.

Lemma parse_converts_coordinates_witness :
  let line := tsv ["chr1"; "10"; "20"; "g1"] in
  split_line line = ["chr1"; "10"; "20"; "g1"] ∧
  Py.int "10" = Ok 10%Z ∧ Py.int "20" = Ok 20%Z ∧
  ((10 < 20)%Z → ∃ r, BedLine_init line = Ok r) ∧
  (∀ r, BedLine_init line = Ok r →
        seqid r = "chr1" ∧ start r = (10 + 1)%Z ∧ end_ r = 20%Z ∧
        accn r = "g1" ∧
        ∀ z, (10 ≤ z < 20)%Z ↔ (start r ≤ z + 1 ≤ end_ r)%Z).
Proof.
  intros line. split; [reflexivity|]. split; [reflexivity|].
  split; [reflexivity|].
  apply (parse_converts_coordinates line "chr1" "10" "20" "g1" [] 10 20);
    reflexivity.
Defined.

(** C2: on a line with at least four columns and integer coordinates,
    [BedLine.__init__] raises the assertion failure with the message
    [start={start} end={end}] exactly when the converted coordinates
    violate [start <= end], and returns a record otherwise; file
    coordinates 10 and 5 are rejected; every record that exists has
    [start <= end]. *)
Theorem parse_validates_order :
  (∀ line sid s1 s2 acc rest a b,
     split_line line = sid :: s1 :: s2 :: acc :: rest →
     Py.int s1 = Ok a → Py.int s2 = Ok b →
     (¬ (a + 1 ≤ b)%Z →
        BedLine_init line =
          Raise (AssertionError
                   ("start=" +:+ Py.str (a + 1) +:+ " end=" +:+ Py.str b))) ∧
     ((a + 1 ≤ b)%Z → ∃ r, BedLine_init line = Ok r) ∧
     ((∃ msg, BedLine_init line = Raise (AssertionError msg)) ↔
        ¬ (a + 1 ≤ b)%Z)) ∧
  BedLine_init (tsv ["chr1"; "10"; "5"; "g1"]) =
    Raise (AssertionError "start=11 end=5") ∧
  (∀ line r, BedLine_init line = Ok r → (start r ≤ end_ r)%Z).
Proof.
  split; [|split; [reflexivity|apply BedLine_init_ordered]].
  intros line sid s1 s2 acc rest a b Hc Ha Hb.
  rewrite (BedLine_init_columns _ _ _ _ _ _ _ _ Hc Ha Hb).
  destruct (Z.leb_spec (a + 1) b) as [Hle|Hlt].
  - split; [lia|]. split; [eauto|]. split; [by intros [? ?]|lia].
  - split; [done|]. split; [lia|]. split; [lia|eauto].
Qed.

Lemma parse_validates_order_witness :
  let line := tsv ["chr1"; "10"; "5"; "g1"; "0"; "+"] in
  split_line line = ["chr1"; "10"; "5"; "g1"; "0"; "+"] ∧
  Py.int "10" = Ok 10%Z ∧ Py.int "5" = Ok 5%Z ∧ ¬ (10 + 1 ≤ 5)%Z ∧
  BedLine_init line = Raise (AssertionError "start=11 end=5") ∧
  (∀ r, BedLine_init (tsv ["chr1"; "4"; "5"; "g1"]) = Ok r →
        (start r ≤ end_ r)%Z).
Proof.
  intros line.
  split; [reflexivity|]. split; [reflexivity|]. split; [reflexivity|].
  split; [lia|].
  destruct parse_validates_order as (Hgate & _ & Hinv). split.
  - destruct (Hgate line "chr1" "10" "5" "g1" ["0"; "+"] 10%Z 5%Z)
      as (Hfail & _); [reflexivity..|].
    apply Hfail. lia.
  - intros r. apply Hinv.
Defined.

(** C3, as the code has it: [__str__] prints seqid, [start - 1], [end],
    accn and the extra columns, joined by tabs; on a line with at least
    four columns whose two coordinate columns are written the way [str]
    prints an integer (no sign [+], no leading zero, no blank) and whose
    range is not empty, printing the parsed record gives back the line
    with its surrounding blanks trimmed. *)
Theorem serialize_parse_canonical line sid acc rest a b :
  split_line line = sid :: Py.str a :: Py.str b :: acc :: rest →
  (a < b)%Z →
  ∃ r, BedLine_init line = Ok r ∧
       BedLine_str r = Py.strip line ∧
       BedLine_str r =
         tsv ([seqid r; Py.str (start r - 1); Py.str (end_ r); accn r]
                ++ rest)%list.
Proof.
  intros Hc Hab.
  rewrite (BedLine_init_columns _ _ _ _ _ _ _ _ Hc (int_str a) (int_str b)).
  destruct (Z.leb_spec (a + 1) b); [|lia].
  eexists. split; [done|].
  rewrite BedLine_str_fields. simpl seqid. simpl start. simpl end_.
  simpl accn. simpl extra.
  replace (a + 1 - 1)%Z with a by lia.
  assert (default [] match rest with [] => None | _ :: _ => Some rest end = rest)
    as -> by by destruct rest.
  split; [|done].
  change (_ ++ rest)%list with (sid :: Py.str a :: Py.str b :: acc :: rest).
  rewrite <- Hc. apply join_split.
Qed.

Lemma serialize_parse_canonical_witness :
  let line := (tsv ["chr1"; "10"; "20"; "g1"; "0"; "+"] +:+ String "010" "") in
  split_line line = ["chr1"; Py.str 10; Py.str 20; "g1"; "0"; "+"] ∧
  (10 < 20)%Z ∧
  ∃ r, BedLine_init line = Ok r ∧
       BedLine_str r = Py.strip line ∧
       BedLine_str r =
         tsv ([seqid r; Py.str (start r - 1); Py.str (end_ r); accn r]
                ++ ["0"; "+"])%list.
Proof.
  intros line. split; [reflexivity|]. split; [lia|].
  apply (serialize_parse_canonical line "chr1" "g1" ["0"; "+"] 10 20);
    [reflexivity|lia].
Defined.

(** C3, as stated, fails: a coordinate column with a leading zero is an
    integer for [int], the line is parsed, and it is printed without the
    zero. *)
Lemma serialize_parse_not_exact :
  let line := tsv ["chr1"; "007"; "10"; "g1"] in
  split_line line = ["chr1"; "007"; "10"; "g1"] ∧
  Py.int "007" = Ok 7%Z ∧ Py.int "10" = Ok 10%Z ∧
  ∃ r, BedLine_init line = Ok r ∧
       BedLine_str r = tsv ["chr1"; "7"; "10"; "g1"] ∧
       BedLine_str r ≠ Py.strip line.
Proof.
  intros line. split; [reflexivity|]. split; [reflexivity|].
  split; [reflexivity|].
  eexists. split; [reflexivity|]. split; [reflexivity|].
  vm_compute. discriminate.
Qed.

(** ** Reverse complement *)

Lemma last_char_snoc s c : Py.last_char (s +:+ String c "") = Ok c.
Proof.
  induction s as [|a s IH]; [done|].
  rewrite app_String. simpl. rewrite IH.
  destruct (s +:+ String c "") eqn:E; [by destruct s|done].
Qed.

Lemma drop_last_snoc s c : Py.drop_last (s +:+ String c "") = s.
Proof.
  induction s as [|a s IH]; [done|].
  rewrite app_String. simpl. rewrite IH.
  destruct (s +:+ String c "") eqn:E; [by destruct s|done].
Qed.

Lemma last_char_inv s c : Py.last_char s = Ok c → s = Py.drop_last s +:+ String c "".
Proof.
  induction s as [|a s IH]; [done|]. simpl.
  destruct s as [|b s]; [by intros [= ->]|].
  intros H. rewrite app_String. f_equal. by apply IH.
Qed.

Lemma last_char_nonempty s : s ≠ "" → ∃ c, Py.last_char s = Ok c.
Proof.
  induction s as [|a s IH]; [done|]. intros _.
  destruct s as [|b s]; [by exists a|]. apply IH. done.
Qed.

Lemma rstrip_with_snoc p s c :
  p c = true → Py.rstrip_with p (s +:+ String c "") = Py.rstrip_with p s.
Proof.
  intros Hc. induction s as [|a s IH]; [by simpl; rewrite Hc|].
  rewrite app_String. simpl. by rewrite IH.
Qed.

Lemma has_marker_snoc s : has_marker s = true → s = Py.drop_last s +:+ "-".
Proof.
  unfold has_marker. destruct (Py.last_char s) as [c|] eqn:Hc; [|done].
  intros ->%Ascii.eqb_eq. by apply last_char_inv.
Qed.

(** Both states of a seqid are looked up under the same name. *)
Lemma rstrip_dash_toggle s :
  Py.rstrip_dash (toggle_marker s) = Py.rstrip_dash s.
Proof.
  unfold toggle_marker, Py.rstrip_dash. destruct (has_marker s) eqn:H.
  - apply has_marker_snoc in H. rewrite H at 2. by rewrite rstrip_with_snoc.
  - by rewrite rstrip_with_snoc.
Qed.


Lemma toggle_marker_involutive s :
  single_marker s → toggle_marker (toggle_marker s) = s.
Proof.
  unfold single_marker, base_seqid, toggle_marker.
  destruct (has_marker s) eqn:H; intros [Hne Hb].
  - rewrite Hb. symmetry. by apply has_marker_snoc.
  - unfold has_marker at 1. rewrite last_char_snoc.
    simpl. apply drop_last_snoc.
Qed.

(** The body of [reverse_complement] once the size is found and the
    seqid is not empty. *)
Lemma reverse_complement_found get_size self size :
  get_size (Py.rstrip_dash (seqid self)) = Ok size →
  seqid self ≠ "" →
  let start' := (size - end_ self + 1)%Z in
  let end' := (size - start self + 1)%Z in
  let self1 := set_coords start' end' (set_seqid (toggle_marker (seqid self)) self) in
  reverse_complement get_size self =
    if (start' <=? end')%Z then
      if Py.truthy (strand self) then
        match flip_strand (default "" (strand self)) with
        | Ok strand' => store_extra_1 strand' (set_strand (Some strand') self1)
        | Raise e => (Raise e, self1)
        end
      else (Ok tt, self1)
    else (Raise (AssertionError (coord_msg start' end')), self1).
Proof.
  intros Hsize Hne. destruct (last_char_nonempty _ Hne) as [c Hc].
  unfold reverse_complement, mbind, method_bind, read, eval, assign. simpl.
  rewrite Hsize, Hc. simpl.
  assert ((if Ascii.eqb c Py.dash then Py.drop_last (seqid self)
           else seqid self +:+ "-") = toggle_marker (seqid self)) as ->.
  { unfold toggle_marker, has_marker. by rewrite Hc. }
  destruct (_ <=? _)%Z; simpl; [|done].
  destruct (Py.truthy (strand self)); simpl; [|done].
  destruct (flip_strand _); done.
Qed.

Lemma flip_strand_Ok sd sd' :
  flip_strand sd = Ok sd' →
  (sd = "+" ∧ sd' = "-") ∨ (sd = "-" ∧ sd' = "+").
Proof.
  unfold flip_strand. repeat case_decide; intros [=]; subst; auto.
Qed.

(** What a successful call has done. *)
Lemma reverse_complement_Ok get_size self self1 :
  reverse_complement get_size self = (Ok tt, self1) →
  ∃ size,
    get_size (Py.rstrip_dash (seqid self)) = Ok size ∧
    seqid self ≠ "" ∧ (start self ≤ end_ self)%Z ∧
    seqid self1 = toggle_marker (seqid self) ∧
    start self1 = (size - end_ self + 1)%Z ∧
    end_ self1 = (size - start self + 1)%Z ∧
    accn self1 = accn self ∧ score self1 = score self ∧
    ((Py.truthy (strand self) = false ∧
      strand self1 = strand self ∧ extra self1 = extra self) ∨
     (∃ sd sd' l,
        strand self = Some sd ∧ flip_strand sd = Ok sd' ∧
        extra self = Some l ∧ 1 < length l ∧
        strand self1 = Some sd' ∧ extra self1 = Some (<[1 := sd']> l))).
Proof.
  intros H.
  destruct (get_size (Py.rstrip_dash (seqid self))) as [size|e] eqn:Hsize; cycle 1.
  { unfold reverse_complement, mbind, method_bind, read, eval in H.
    simpl in H. by rewrite Hsize in H. }
  assert (seqid self ≠ "") as Hne.
  { intros Hnil. unfold reverse_complement, mbind, method_bind, read, eval in H.
    simpl in H. by rewrite Hsize, Hnil in H. }
  rewrite (reverse_complement_found _ _ _ Hsize Hne) in H. simpl in H.
  exists size. split; [done|]. split; [done|].
  destruct (Z.leb_spec (size - end_ self + 1) (size - start self + 1)); [|done].
  split; [lia|].
  destruct (Py.truthy (strand self)) eqn:Ht.
  - destruct (strand self) as [sd|] eqn:Hsd; [|done]. simpl in H.
    destruct (flip_strand sd) as [sd'|] eqn:Hf; [|done].
    unfold store_extra_1 in H. simpl in H.
    destruct (extra self) as [l|] eqn:He; [|done].
    case_decide; [|done]. injection H as <-. simpl.
    repeat (split; [done|]). right. by exists sd, sd', l.
  - injection H as <-. simpl. repeat (split; [done|]). by left.
Qed.

(** When a call succeeds. *)
Lemma reverse_complement_succeeds get_size self size :
  get_size (Py.rstrip_dash (seqid self)) = Ok size →
  seqid self ≠ "" → (start self ≤ end_ self)%Z →
  (Py.truthy (strand self) = false ∨
   ∃ sd sd' l, strand self = Some sd ∧ flip_strand sd = Ok sd' ∧
               extra self = Some l ∧ 1 < length l) →
  ∃ self1, reverse_complement get_size self = (Ok tt, self1).
Proof.
  intros Hsize Hne Hle Hs.
  rewrite (reverse_complement_found _ _ _ Hsize Hne). simpl.
  destruct (Z.leb_spec (size - end_ self + 1) (size - start self + 1)); [|lia].
  destruct Hs as [->|(sd & sd' & l & Hsd & Hf & He & Hl)]; [eauto|].
  assert (Py.truthy (Some sd) = true) as Ht.
  { apply flip_strand_Ok in Hf as [[-> _]|[-> _]]; done. }
  rewrite Hsd, Ht. simpl default. rewrite Hf.
  unfold store_extra_1. simpl. rewrite He. rewrite decide_True by done. eauto.
Qed.

Lemma toggle_marker_nonempty s : single_marker s → toggle_marker s ≠ "".
Proof.
  unfold single_marker, base_seqid, toggle_marker.
  destruct (has_marker s); intros [Hne _]; [done|]. by destruct s.
Qed.

Lemma BedLine_init_views line r : BedLine_init line = Ok r → views_ok r.
Proof.
  unfold BedLine_init.
  destruct (Py.index _ 0); simpl; [|done].
  destruct (Py.index _ 1); simpl; [|done].
  destruct (Py.int _) as [n1|]; simpl; [|done].
  destruct (Py.index _ 2); simpl; [|done].
  destruct (Py.int _) as [n2|]; simpl; [|done].
  destruct (n1 + 1 <=? n2)%Z; simpl; [|done].
  destruct (Py.index _ 3); simpl; [|done].
  intros [= <-]. unfold views_ok. simpl.
  generalize (split_line line). intros args.
  repeat case_decide; simpl; try done; try lia.
  split; [done|].
  rewrite lookup_drop. symmetry. apply lookup_ge_None. simpl. lia.
Qed.

(** A record as [__init__] builds it, with a strand in the vocabulary
    of the method, is reversed without failure once its size is found. *)
Lemma reverse_complement_parsed get_size self size :
  get_size (Py.rstrip_dash (seqid self)) = Ok size →
  seqid self ≠ "" → (start self ≤ end_ self)%Z →
  views_ok self → strand_ok self →
  ∃ self1, reverse_complement get_size self = (Ok tt, self1).
Proof.
  intros Hsize Hne Hle [Hsc Hst] Hvoc.
  apply (reverse_complement_succeeds get_size self size Hsize Hne Hle).
  destruct Hvoc as [Hs|[Hs|Hs]]; rewrite Hs in *; [by left|right..].
  - destruct (extra self) as [l|] eqn:He; [|done]. simpl in Hst.
    exists "+", "-", l. repeat split; try done.
    symmetry in Hst. by apply lookup_lt_Some in Hst.
  - destruct (extra self) as [l|] eqn:He; [|done]. simpl in Hst.
    exists "-", "+", l. repeat split; try done.
    symmetry in Hst. by apply lookup_lt_Some in Hst.
Qed.



Lemma app_id_inv (s t : string) : s +:+ t = s → t = "".
Proof.
  induction s as [|a s IH]; [done|]. rewrite app_String. by intros [= ?%IH].
Qed.

Lemma toggle_marker_empty s : s ≠ "" → (toggle_marker s = "" ↔ s = "-").
Proof.
  intros Hne. split; [|by intros ->].
  unfold toggle_marker. destruct (has_marker s) eqn:Hm.
  - intros Hd. apply has_marker_snoc in Hm. by rewrite Hd in Hm.
  - by destruct s.
Qed.

(** Toggling the marker twice gives the seqid back exactly when its
    base name carries no marker, and the marker state back unless the
    seqid ends in exactly two markers. *)
Lemma toggle_twice_seqid s :
  toggle_marker (toggle_marker s) = s ↔ has_marker (base_seqid s) = false.
Proof.
  unfold base_seqid, toggle_marker at 2. destruct (has_marker s) eqn:Hm.
  - pose proof (has_marker_snoc _ Hm) as Hs.
    unfold toggle_marker. destruct (has_marker (Py.drop_last s)) eqn:Hb.
    + split; [|done]. intros Heq.
      pose proof (has_marker_snoc _ Hb) as Hb'.
      rewrite Hb', app_assoc_s in Hs. rewrite <- Heq in Hs at 1.
      symmetry in Hs. by apply app_id_inv in Hs.
    + split; [done|]. intros _. by symmetry.
  - split; [done|]. intros _. unfold toggle_marker, has_marker at 1.
    rewrite last_char_snoc. simpl. apply drop_last_snoc.
Qed.

Lemma toggle_twice_marker s :
  has_marker (toggle_marker (toggle_marker s)) = has_marker s ↔
  two_markers s = false.
Proof.
  unfold two_markers, toggle_marker at 2. destruct (has_marker s) eqn:Hm.
  - unfold toggle_marker. destruct (has_marker (Py.drop_last s)) eqn:Hb; simpl.
    + destruct (has_marker (Py.drop_last (Py.drop_last s))); simpl; done.
    + split; [done|]. intros _. unfold has_marker. by rewrite last_char_snoc.
  - simpl. split; [done|]. intros _. unfold toggle_marker, has_marker at 2.
    rewrite last_char_snoc. simpl. by rewrite drop_last_snoc.
Qed.

(** C7, as the code has it: when [reverse_complement] has succeeded, a
    second call with the same size lookup succeeds as soon as the seqid
    was not the bare marker ["-"]; whenever it succeeds it gives back
    the start, the end and the strand the record had, with its accn and
    score, and its extra columns when score and strand were the first
    two of them; it gives back the marker state of the seqid unless the
    seqid ended in exactly two markers, and the seqid itself exactly
    when its base name carried no marker; with one marker at most on a
    base name that is not empty, the whole record. *)
Theorem reverse_complement_twice get_size self self1 :
  reverse_complement get_size self = (Ok tt, self1) →
  (seqid self ≠ "-" →
   ∃ self2, reverse_complement get_size self1 = (Ok tt, self2)) ∧
  (∀ self2,
     reverse_complement get_size self1 = (Ok tt, self2) →
     start self2 = start self ∧ end_ self2 = end_ self ∧
     strand self2 = strand self ∧
     accn self2 = accn self ∧ score self2 = score self ∧
     (views_ok self → extra self2 = extra self) ∧
     (has_marker (seqid self2) = has_marker (seqid self) ↔
      two_markers (seqid self) = false) ∧
     (seqid self2 = seqid self ↔
      has_marker (base_seqid (seqid self)) = false) ∧
     (single_marker (seqid self) → views_ok self → self2 = self)).
Proof.
  intros H1.
  apply reverse_complement_Ok in H1
    as (size & Hsize & Hne & Hle & Hid & Hs & He & Ha & Hsc & Hstr).
  assert (get_size (Py.rstrip_dash (seqid self1)) = Ok size) as Hsize1.
  { by rewrite Hid, rstrip_dash_toggle. }
  assert (start self1 ≤ end_ self1)%Z as Hle1 by lia.
  split.
  - intros Hbare.
    assert (seqid self1 ≠ "") as Hne1.
    { rewrite Hid. by intros ?%toggle_marker_empty. }
    apply (reverse_complement_succeeds get_size self1 size Hsize1 Hne1 Hle1).
    destruct Hstr as [(Ht & Hs1 & He1)|(sd & sd' & l & Hsd & Hf & Hex & Hl & Hs1 & He1)].
    + left. by rewrite Hs1.
    + right. exists sd', sd, (<[1 := sd']> l).
      rewrite length_insert. repeat split; try done.
      apply flip_strand_Ok in Hf as [[-> ->]|[-> ->]]; done.
  - intros self2 H2.
    apply reverse_complement_Ok in H2
      as (size' & Hsize' & _ & _ & Hid2 & Hs2 & He2 & Ha2 & Hsc2 & Hstr2).
    rewrite Hsize1 in Hsize'. injection Hsize' as <-.
    assert (strand self2 = strand self ∧
            (views_ok self → extra self2 = extra self)) as [Hstrand Hextra].
    { destruct Hstr as [(Ht & Hs1 & He1)|(sd & sd' & l & Hsd & Hf & Hex & Hl & Hs1 & He1)].
      - destruct Hstr2 as [(_ & Hs3 & He3)|(sd2 & ? & ? & Hsd2 & Hf2 & _)].
        + split; [congruence|intros _; congruence].
        + rewrite Hs1 in Hsd2. rewrite Hsd2 in Ht.
          apply flip_strand_Ok in Hf2 as [[-> _]|[-> _]]; done.
      - destruct Hstr2 as [(Ht2 & _)|(sd2 & sd2' & l2 & Hsd2 & Hf2 & Hex2 & _ & Hs3 & He3)].
        + rewrite Hs1 in Ht2.
          apply flip_strand_Ok in Hf as [[_ ->]|[_ ->]]; done.
        + assert (sd2 = sd') as -> by congruence.
          assert (l2 = <[1 := sd']> l) as -> by congruence.
          assert (sd2' = sd) as ->.
          { apply flip_strand_Ok in Hf as [[-> ->]|[-> ->]];
              apply flip_strand_Ok in Hf2 as [[? ->]|[? ->]]; done. }
          split; [congruence|]. intros [_ Hv].
          rewrite He3, Hex. f_equal. rewrite list_insert_insert_eq.
          apply list_insert_id. rewrite Hsd, Hex in Hv. simpl in Hv. done. }
    assert (seqid self2 = toggle_marker (toggle_marker (seqid self))) as Hseq
      by by rewrite Hid2, Hid.
    split; [lia|]. split; [lia|]. split; [done|].
    split; [congruence|]. split; [congruence|]. split; [done|].
    split; [rewrite Hseq; apply toggle_twice_marker|].
    split; [rewrite Hseq; apply toggle_twice_seqid|].
    intros [_ Hb] Hv. specialize (Hextra Hv).
    assert (seqid self2 = seqid self) as Hseq'
      by (rewrite Hseq; by apply toggle_twice_seqid).
    destruct self, self2; simpl in *. f_equal; try done; try lia; congruence.
Qed.

Lemma reverse_complement_twice_witness :
  let self := mkBedLine "chr1---" 11 20 "g1" (Some ["0"; "-"]) (Some "0") (Some "-") in
  let self1 := mkBedLine "chr1--" 81 90 "g1" (Some ["0"; "+"]) (Some "0") (Some "+") in
  let get_size := one_size "chr1" 100 in
  reverse_complement get_size self = (Ok tt, self1) ∧
  seqid self ≠ "-" ∧
  ∃ self2,
    reverse_complement get_size self1 = (Ok tt, self2) ∧
    start self2 = start self ∧ end_ self2 = end_ self ∧
    strand self2 = strand self ∧ extra self2 = extra self ∧
    has_marker (seqid self2) = has_marker (seqid self) ∧
    seqid self2 ≠ seqid self.
Proof.
  intros self self1 get_size.
  assert (reverse_complement get_size self = (Ok tt, self1)) as H1 by reflexivity.
  assert (seqid self ≠ "-") as H2 by discriminate.
  split; [exact H1|]. split; [exact H2|].
  destruct (reverse_complement_twice get_size self self1 H1) as [Hex Hall].
  destruct (Hex H2) as [self2 Hrc]. exists self2. split; [exact Hrc|].
  destruct (Hall self2 Hrc) as (Hs & He & Hst & _ & _ & Hx & Hm & Hid & _).
  split; [exact Hs|]. split; [exact He|]. split; [exact Hst|].
  split; [apply Hx; split; reflexivity|].
  split; [apply Hm; reflexivity|].
  intros Heq. apply Hid in Heq. discriminate Heq.
Defined.

(** C7, as stated, fails: a seqid that ends in two markers is looked up
    under its base name both times, loses one marker at each call, and
    is left without any after two calls. *)
Lemma reverse_complement_twice_loses_marker :
  let self := mkBedLine "chr1--" 11 20 "g1" None None None in
  let get_size := one_size "chr1" 100 in
  BedLine_init (tsv ["chr1--"; "10"; "20"; "g1"]) = Ok self ∧
  ∃ self1 self2,
    reverse_complement get_size self = (Ok tt, self1) ∧
    reverse_complement get_size self1 = (Ok tt, self2) ∧
    seqid self1 = "chr1-" ∧ seqid self2 = "chr1" ∧
    seqid self2 ≠ seqid self ∧
    has_marker (seqid self) = true ∧ has_marker (seqid self2) = false ∧
    start self2 = start self ∧ end_ self2 = end_ self.
Proof.
  intros self get_size. split; [reflexivity|].
  exists (mkBedLine "chr1-" 81 90 "g1" None None None),
         (mkBedLine "chr1" 11 20 "g1" None None None).
  split; [reflexivity|]. split; [reflexivity|].
  repeat split; try reflexivity. discriminate.
Qed.

(** C10: once the size is obtained, whatever it is, the assertion of
    [reverse_complement] cannot fail on a record with [start <= end]:
    the new coordinates [size - end + 1] and [size - start + 1] are in
    order, also when the size is smaller than the end of the record, in
    which case the new start is zero or negative and the call still
    succeeds. *)
Theorem reverse_complement_assert_passes get_size self size :
  (start self ≤ end_ self)%Z →
  get_size (Py.rstrip_dash (seqid self)) = Ok size →
  (∀ msg, (reverse_complement get_size self).1 ≠ Raise (AssertionError msg)) ∧
  (seqid self ≠ "" →
   let self' := (reverse_complement get_size self).2 in
   start self' = (size - end_ self + 1)%Z ∧
   end_ self' = (size - start self + 1)%Z ∧
   (start self' ≤ end_ self')%Z ∧
   ((size < end_ self)%Z → (start self' ≤ 0)%Z) ∧
   (views_ok self → strand_ok self →
    (reverse_complement get_size self).1 = Ok tt)).
Proof.
  intros Hle Hsize. split.
  - intros msg. destruct (decide (seqid self = "")) as [Hnil|Hne].
    + unfold reverse_complement, mbind, method_bind, read, eval. simpl.
      rewrite Hsize, Hnil. simpl. discriminate.
    + rewrite (reverse_complement_found _ _ _ Hsize Hne). simpl.
      destruct (Z.leb_spec (size - end_ self + 1) (size - start self + 1)); [|lia].
      destruct (Py.truthy (strand self)); [|done].
      unfold flip_strand, store_extra_1.
      repeat case_decide; simpl; try done;
        destruct (extra self); simpl; try done; by case_decide.
  - intros Hne self'.
    assert (start self' = (size - end_ self + 1)%Z ∧
            end_ self' = (size - start self + 1)%Z) as [Hs He].
    { unfold self'. rewrite (reverse_complement_found _ _ _ Hsize Hne). simpl.
      destruct (Z.leb_spec (size - end_ self + 1) (size - start self + 1)); [|lia].
      destruct (Py.truthy (strand self)); [|done].
      destruct (flip_strand _); [|done].
      unfold store_extra_1. simpl. destruct (extra self); [|done].
      by case_decide. }
    split; [done|]. split; [done|]. split; [lia|]. split; [lia|].
    intros Hv Hvoc.
    destruct (reverse_complement_parsed get_size self size Hsize Hne Hle Hv Hvoc)
      as [? ->].
    done.
Qed.

Lemma reverse_complement_assert_passes_witness :
  let self := mkBedLine "chr1" 11 20 "g1" None None None in
  let get_size := one_size "chr1" 15 in
  (start self ≤ end_ self)%Z ∧
  get_size (Py.rstrip_dash (seqid self)) = Ok 15%Z ∧
  reverse_complement get_size self =
    (Ok tt, mkBedLine "chr1-" (-4) 5 "g1" None None None) ∧
  ∀ msg, (reverse_complement get_size self).1 ≠ Raise (AssertionError msg).
Proof.
  intros self get_size.
  assert (start self ≤ end_ self)%Z as H1 by (simpl; lia).
  assert (get_size (Py.rstrip_dash (seqid self)) = Ok 15%Z) as H2 by reflexivity.
  split; [exact H1|]. split; [exact H2|]. split; [reflexivity|].
  apply (reverse_complement_assert_passes get_size self 15 H1 H2).
Defined.

(** ** Sorting *)

Section SortFacts.
Context {A K : Type} (leb : K → K → bool) (key : A → K).
Hypothesis leb_total : ∀ a b, leb a b ∨ leb b a.
Hypothesis leb_trans : ∀ a b c, leb a b → leb b c → leb a c.

Lemma insert_by_Permutation x l : insert_by leb key x l ≡ₚ x :: l.
Proof.
  induction l as [|y l IH]; simpl; [done|].
  destruct (leb (key x) (key y)); [done|].
  rewrite IH. apply Permutation_swap.
Qed.

Lemma sort_by_Permutation l : sort_by leb key l ≡ₚ l.
Proof.
  induction l as [|x l IH]; simpl; [done|].
  by rewrite insert_by_Permutation, IH.
Qed.

Lemma insert_by_sorted x l :
  StronglySorted (λ x y, leb (key x) (key y)) l →
  StronglySorted (λ x y, leb (key x) (key y)) (insert_by leb key x l).
Proof.
  induction 1 as [|y l Hs IH Hy]; simpl.
  - repeat constructor.
  - destruct (leb (key x) (key y)) eqn:Hxy.
    + constructor; [by constructor|].
      constructor; [by rewrite Hxy|].
      eapply Forall_impl; [exact Hy|]. intros z Hz. simpl in *.
      eapply leb_trans; [|exact Hz]. by rewrite Hxy.
    + constructor; [done|].
      rewrite insert_by_Permutation. constructor; [|done].
      destruct (leb_total (key x) (key y)); [|done].
      by rewrite Hxy in *.
Qed.

Lemma sort_by_sorted l :
  StronglySorted (λ x y, leb (key x) (key y)) (sort_by leb key l).
Proof.
  induction l as [|x l IH]; simpl; [constructor|by apply insert_by_sorted].
Qed.


End SortFacts.

Lemma string_compare_Lt s t :
  (s ?= t)%string = Lt → String.le s t ∧ s ≠ t.
Proof.
  intros H. split.
  - unfold String.le, String.leb. by rewrite H.
  - intros ->. pose proof (String.compare_antisym t t) as Ha.
    rewrite H in Ha. discriminate.
Qed.

Lemma string_compare_Gt s t : (s ?= t)%string = Gt → ¬ String.le s t.
Proof. intros H Hs. unfold String.le, String.leb in Hs. by rewrite H in Hs. Qed.

Lemma tuple_leb_le a b : tuple_leb a b ↔ tuple_le a b.
Proof.
  destruct a as [[s1 n1] a1], b as [[s2 n2] a2]. unfold tuple_leb, tuple_le. simpl.
  destruct (s1 ?= s2)%string eqn:Hs.
  - apply String.compare_eq_iff in Hs as ->.
    destruct (Z.compare_spec n1 n2) as [->|Hn|Hn].
    + split; [by intros ?; repeat split|]. intros (_ & H). by apply H.
    + split; [intros _|done]. split; [done|]. intros _. split; [lia|]. lia.
    + split; [done|]. intros (_ & H). destruct (H eq_refl). lia.
  - apply string_compare_Lt in Hs as [Hle Hne]. split; [|done].
    intros _. split; [done|]. done.
  - apply string_compare_Gt in Hs. split; [done|]. by intros [? _].
Qed.

Lemma tuple_leb_total a b : tuple_leb a b ∨ tuple_leb b a.
Proof.
  rewrite !tuple_leb_le. unfold tuple_le.
  destruct a as [[s1 n1] a1], b as [[s2 n2] a2]. simpl.
  destruct (decide (s1 = s2)) as [->|Hne].
  - destruct (Z.lt_trichotomy n1 n2) as [?|[->|?]].
    + left. split; [done|]. intros _. split; lia.
    + destruct (total String.le a1 a2); [left|right]; by repeat split.
    + right. split; [done|]. intros _. split; lia.
  - destruct (total String.le s1 s2); [left|right]; by split.
Qed.

Lemma tuple_leb_trans a b c : tuple_leb a b → tuple_leb b c → tuple_leb a c.
Proof.
  rewrite !tuple_leb_le. unfold tuple_le.
  destruct a as [[s1 n1] a1], b as [[s2 n2] a2], c as [[s3 n3] a3]. simpl.
  intros [H12 K12] [H23 K23]. split; [by etrans|].
  intros <-. assert (s1 = s2) as <- by by apply (anti_symm String.le).
  destruct (K12 eq_refl) as [L12 M12]. destruct (K23 eq_refl) as [L23 M23].
  split; [lia|]. intros <-. assert (n1 = n2) as <- by lia.
  etrans; [by apply M12|by apply M23].
Qed.

(** ** Loading a collection *)

Lemma StronglySorted_weaken {A} (R1 R2 : A → A → Prop) l :
  (∀ x y, R1 x y → R2 x y) → StronglySorted R1 l → StronglySorted R2 l.
Proof.
  intros HR. induction 1 as [|x l Hs IH Hx]; constructor; [done|].
  eapply Forall_impl; [exact Hx|]. intros y. apply HR.
Qed.

Lemma Bed_init_Ok {K} (leb : K → K → bool) open filename key bed :
  Bed_init leb open filename key = Ok bed →
  ∃ recs, loaded open filename recs ∧ bed = sort_by leb key recs.
Proof.
  unfold Bed_init, loaded. destruct (Py.truthy filename).
  - destruct (open _) as [lines|] eqn:Ho; simpl; [|done].
    destruct (load_lines lines) as [recs|] eqn:Hl; simpl; [|done].
    intros [= <-]. exists recs. split; [by exists lines|done].
  - intros [= <-]. by exists [].
Qed.




(** ** The order index *)

Lemma Bed_order_snoc (l : list BedLine) x :
  Bed_order (l ++ [x]) = <[accn x := (length l, x)]> (Bed_order l).
Proof.
  unfold Bed_order, enumerate. rewrite imap_app, foldl_app. simpl.
  by rewrite Nat.add_0_r.
Qed.

Lemma Bed_order_None (bed : list BedLine) a :
  Bed_order bed !! a = None ↔ ∀ f, f ∈ bed → accn f ≠ a.
Proof.
  induction bed as [|x l IH] using rev_ind.
  - split; [|done]. intros _ f Hf. by apply elem_of_nil in Hf.
  - rewrite Bed_order_snoc. destruct (decide (accn x = a)) as [Hx|Hx].
    + rewrite Hx, lookup_insert_eq. split; [done|].
      intros H. destruct (H x); [|done]. apply elem_of_app. right. by left.
    + rewrite lookup_insert_ne, IH by done. split.
      * intros H f [Hf|Hf]%elem_of_app; [by apply H|].
        by apply list_elem_of_singleton in Hf as ->.
      * intros H f Hf. apply H, elem_of_app. by left.
Qed.

(** C8: the order index maps an accession to the zero-based position and
    the record of its last occurrence in the collection, and to nothing
    when no record has it. *)
Theorem order_last_wins (bed : list BedLine) (a : string) :
  (∀ i f,
     Bed_order bed !! a = Some (i, f) ↔
     bed !! i = Some f ∧ accn f = a ∧
     ∀ j g, i < j → bed !! j = Some g → accn g ≠ a) ∧
  (Bed_order bed !! a = None ↔ ∀ f, f ∈ bed → accn f ≠ a).
Proof.
  split; [|apply Bed_order_None].
  induction bed as [|x l IH] using rev_ind; intros i f.
  - split; [done|]. by intros [? _].
  - rewrite Bed_order_snoc. destruct (decide (accn x = a)) as [Hx|Hx].
    + rewrite Hx, lookup_insert_eq. split.
      * intros [= <- <-]. split; [by apply list_lookup_middle|].
        split; [done|]. intros j g Hj Hg.
        apply lookup_lt_Some in Hg. rewrite length_app in Hg. simpl in Hg. lia.
      * intros (Hi & Ha & Hlast).
        apply lookup_snoc_Some in Hi as [[Hlt Hi]|[-> ->]]; [|done].
        destruct (Hlast (length l) x Hlt); [|done].
        by apply list_lookup_middle.
    + rewrite lookup_insert_ne, IH by done. split.
      * intros (Hi & Ha & Hlast). split; [|split; [done|]].
        { rewrite lookup_app_l; [done|]. by apply lookup_lt_Some in Hi. }
        intros j g Hj Hg.
        apply lookup_snoc_Some in Hg as [[Hlt Hg]|[-> ->]]; [|done].
        by apply (Hlast j g).
      * intros (Hi & Ha & Hlast).
        apply lookup_snoc_Some in Hi as [[Hlt Hi]|[-> ->]]; [|done].
        split; [done|]. split; [done|]. intros j g Hj Hg.
        apply (Hlast j g Hj). rewrite lookup_app_l; [done|].
        by apply lookup_lt_Some in Hg.
Qed.

(** Two records share the accession g1: the index holds the later one. *)
Example order_last_wins_example :
  let early := mkBedLine "chr1" 11 20 "g1" None None None in
  let other := mkBedLine "chr1" 31 40 "g2" None None None in
  let late := mkBedLine "chr2" 5 9 "g1" None None None in
  Bed_order [early; other; late] !! "g1" = Some (2, late) ∧
  Bed_order [early; other; late] !! "g2" = Some (1, other) ∧
  Bed_order [early; other; late] !! "g3" = None.
Proof. intros early other late. repeat split; vm_compute; reflexivity. Qed.

(** ** Grouping by seqid *)

Lemma string_leb_total (a b : string) : String.leb a b ∨ String.leb b a.
Proof. apply (total String.le). Qed.

Lemma string_leb_trans (a b c : string) :
  String.leb a b → String.leb b c → String.leb a c.
Proof. apply (transitivity (R := String.le)). Qed.

Lemma sorted_Permutation l : sorted l ≡ₚ l.
Proof. apply sort_by_Permutation. Qed.

Lemma sorted_ascending l : StronglySorted String.le (sorted l).
Proof.
  apply (sort_by_sorted String.leb id string_leb_total string_leb_trans).
Qed.

Lemma StronglySorted_strict {A} (R : A → A → Prop) l :
  StronglySorted R l → NoDup l → StronglySorted (λ x y, R x y ∧ x ≠ y) l.
Proof.
  induction 1 as [|x l Hs IH Hx]; intros Hnd; [constructor|].
  apply NoDup_cons in Hnd as [Hin Hnd]. constructor; [by apply IH|].
  apply Forall_forall. intros y Hy. split.
  - by apply (proj1 (Forall_forall _ _) Hx).
  - by intros ->.
Qed.

Lemma Bed_seqids_elem bed s :
  s ∈ Bed_seqids bed ↔ ∃ b, b ∈ bed ∧ seqid b = s.
Proof.
  unfold Bed_seqids. rewrite sorted_Permutation, elem_of_elements,
    elem_of_list_to_set, list_elem_of_fmap.
  split; intros (b & ? & ?); by exists b.
Qed.

Lemma Bed_seqids_NoDup bed : NoDup (Bed_seqids bed).
Proof. unfold Bed_seqids. rewrite sorted_Permutation. apply NoDup_elements. Qed.

(** The groups of distinct names cover the records with these names. *)
Lemma groups_Permutation (ids : list string) (bed : list BedLine) :
  NoDup ids →
  mjoin ((λ s, filter (λ b, seqid b = s) bed) <$> ids)
    ≡ₚ filter (λ b, seqid b ∈ ids) bed.
Proof.
  induction 1 as [|s ids Hs Hnd IH]; simpl.
  - induction bed as [|b bed IHb]; [done|].
    rewrite filter_cons_False; [done|]. apply not_elem_of_nil.
  - rewrite IH. clear IH. induction bed as [|b bed IHb]; [done|].
    rewrite !filter_cons.
    destruct (decide (seqid b = s)) as [Hb|Hb].
    + rewrite decide_False by (by rewrite Hb).
      rewrite decide_True by (rewrite Hb; by left).
      simpl. by rewrite IHb.
    + destruct (decide (seqid b ∈ ids)) as [Hi|Hi].
      * rewrite decide_True by by right.
        rewrite <- Permutation_middle. by rewrite IHb.
      * rewrite decide_False; [done|].
        intros [?|?]%elem_of_cons; done.
Qed.

Lemma filter_all {A} (P : A → Prop) `{∀ x, Decision (P x)} (l : list A) :
  Forall P l → filter P l = l.
Proof.
  induction 1 as [|x l Hx Hl IH]; [done|]. by rewrite filter_cons_True, IH.
Qed.

Lemma filter_none {A} (P : A → Prop) `{∀ x, Decision (P x)} (l : list A) :
  Forall (λ x, ¬ P x) l → filter P l = [].
Proof.
  induction 1 as [|x l Hx Hl IH]; [done|]. by rewrite filter_cons_False, IH.
Qed.

(** In a collection sorted on the seqid, the records of the least seqid
    come first. *)
Lemma sorted_bed_split s (ids : list string) (bed : list BedLine) :
  Forall (λ t, String.le s t ∧ s ≠ t) ids →
  StronglySorted (λ x y, String.le (seqid x) (seqid y)) bed →
  (∀ b, b ∈ bed → seqid b ∈ s :: ids) →
  ∃ l1 l2 : list BedLine,
    bed = (l1 ++ l2)%list ∧
    Forall (λ b, seqid b = s) l1 ∧ Forall (λ b, seqid b ∈ ids) l2.
Proof.
  intros Hids. induction 1 as [|b bed Hs IH Hb]; intros Hin.
  - by exists [], [].
  - destruct (decide (seqid b = s)) as [Heq|Hne].
    + destruct IH as (l1 & l2 & -> & H1 & H2).
      { intros c Hc. apply Hin. by right. }
      exists (b :: l1), l2. split; [done|]. split; [by constructor|done].
    + exists [], (b :: bed). split; [done|]. split; [constructor|].
      assert (seqid b ∈ ids) as Hbi.
      { assert (seqid b ∈ s :: ids) as [?|?]%elem_of_cons; [|done..].
        apply Hin. by left. }
      pose proof (proj1 (Forall_forall _ _) Hids _ Hbi) as [Hsb _].
      apply Forall_forall. intros c [->|Hc]%elem_of_cons; [done|].
      assert (seqid c ∈ s :: ids) as [Hcs|?]%elem_of_cons; [|clear Hin|done].
      { apply Hin. by right. }
      pose proof (proj1 (Forall_forall _ _) Hb c Hc) as Hbc. simpl in Hbc.
      rewrite Hcs in Hbc. destruct Hne. by apply (anti_symm String.le).
Qed.

Lemma groups_of_sorted (ids : list string) : ∀ bed : list BedLine,
  StronglySorted (λ s t, String.le s t ∧ s ≠ t) ids →
  StronglySorted (λ x y, String.le (seqid x) (seqid y)) bed →
  (∀ b, b ∈ bed → seqid b ∈ ids) →
  mjoin ((λ s, filter (λ b, seqid b = s) bed) <$> ids) = bed.
Proof.
  induction ids as [|s ids IH]; intros bed Hids Hbed Hin.
  - destruct bed as [|b bed]; [done|].
    destruct (not_elem_of_nil (seqid b)). apply Hin. by left.
  - apply StronglySorted_inv in Hids as [Hids Hs].
    destruct (sorted_bed_split s ids bed Hs Hbed Hin) as (l1 & l2 & -> & H1 & H2).
    rewrite fmap_cons. simpl mjoin. rewrite filter_app.
    rewrite (filter_all _ l1 H1).
    rewrite (filter_none _ l2), app_nil_r.
    2:{ eapply Forall_impl; [exact H2|]. intros b Hb Heq. simpl in Hb, Heq.
        rewrite Heq in Hb.
        by destruct (proj1 (Forall_forall _ _) Hs _ Hb). }
    f_equal.
    trans (mjoin ((λ t, filter (λ b, seqid b = t) l2) <$> ids)).
    2:{ apply IH; [done| |by apply Forall_forall].
        by apply StronglySorted_app_1_r in Hbed. }
    f_equal. apply list_fmap_ext. intros i t Ht. apply list_elem_of_lookup_2 in Ht.
    rewrite filter_app, (filter_none _ l1); [done|].
    eapply Forall_impl; [exact H1|]. intros b -> ->.
    by destruct (proj1 (Forall_forall _ _) Hs _ Ht).
Qed.

(** C9: [seqids] lists the seqids of the collection once each in
    ascending order; [sub_bed] keeps the records of one seqid, in the
    order of the collection; the groups of two seqids share no record,
    and the groups of all seqids together hold every record of the
    collection once; chained in the order of [seqids] they are the
    collection itself when it is sorted on the seqid, as under the
    default key. *)
Theorem grouping_partitions (bed : list BedLine) :
  StronglySorted (λ s t, String.le s t ∧ s ≠ t) (Bed_seqids bed) ∧
  (∀ s, s ∈ Bed_seqids bed ↔ ∃ b, b ∈ bed ∧ seqid b = s) ∧
  (∀ s, Bed_sub_bed bed s = filter (λ b, seqid b = s) bed ∧
        sublist (Bed_sub_bed bed s) bed ∧
        ∀ b, b ∈ Bed_sub_bed bed s ↔ b ∈ bed ∧ seqid b = s) ∧
  (∀ s t b, s ≠ t → b ∈ Bed_sub_bed bed s → b ∉ Bed_sub_bed bed t) ∧
  mjoin (Bed_sub_bed bed <$> Bed_seqids bed) ≡ₚ bed ∧
  (StronglySorted (λ x y, tuple_le (default_key x) (default_key y)) bed →
   mjoin (Bed_sub_bed bed <$> Bed_seqids bed) = bed).
Proof.
  assert (StronglySorted (λ s t, String.le s t ∧ s ≠ t) (Bed_seqids bed)) as Hids.
  { apply StronglySorted_strict; [apply sorted_ascending|apply Bed_seqids_NoDup]. }
  split; [done|]. split; [|split; [|split; [|split]]].
  - apply Bed_seqids_elem.
  - intros s. split; [done|]. split; [apply sublist_filter|].
    intros b. unfold Bed_sub_bed. rewrite list_elem_of_filter. tauto.
  - intros s t b Hst. unfold Bed_sub_bed. rewrite !list_elem_of_filter.
    intros [Hs _] [Ht _]. congruence.
  - unfold Bed_sub_bed.
    rewrite (groups_Permutation _ _ (Bed_seqids_NoDup bed)).
    rewrite filter_all; [done|]. apply Forall_forall. intros b Hb.
    apply Bed_seqids_elem. by exists b.
  - intros Hsorted. apply groups_of_sorted; [done| |].
    + eapply StronglySorted_weaken; [|exact Hsorted]. by intros x y [? _].
    + intros b Hb. apply Bed_seqids_elem. by exists b.
Qed.

Lemma grouping_partitions_witness :
  let g3 := mkBedLine "chr1" 11 20 "g3" None None None in
  let g2 := mkBedLine "chr1" 51 80 "g2" None None None in
  let g1 := mkBedLine "chr2" 101 200 "g1" None None None in
  Bed_init_default (λ _, Ok [file_line ["chr2"; "100"; "200"; "g1"];
                             file_line ["chr1"; "50"; "80"; "g2"];
                             file_line ["chr1"; "10"; "20"; "g3"]])
    (Some "genes.bed") = Ok [g3; g2; g1] ∧
  mjoin (Bed_sub_bed [g3; g2; g1] <$> Bed_seqids [g3; g2; g1]) = [g3; g2; g1].
Proof.
  intros g3 g2 g1.
  assert (Bed_init_default
            (λ _, Ok [file_line ["chr2"; "100"; "200"; "g1"];
                      file_line ["chr1"; "50"; "80"; "g2"];
                      file_line ["chr1"; "10"; "20"; "g3"]])
            (Some "genes.bed") = Ok [g3; g2; g1]) as H by reflexivity.
  split; [exact H|].
  apply (grouping_partitions [g3; g2; g1]).
  apply Bed_init_Ok in H as (recs & _ & ->).
  eapply StronglySorted_weaken;
    [|apply (sort_by_sorted tuple_leb default_key
               tuple_leb_total tuple_leb_trans)].
  intros x y. apply tuple_leb_le.
Defined.

Example grouping_partitions_example :
  let g1 := mkBedLine "chr2" 101 200 "g1" None None None in
  let g2 := mkBedLine "chr1" 51 80 "g2" None None None in
  let g3 := mkBedLine "chr10" 11 20 "g3" None None None in
  let g4 := mkBedLine "chr2" 1 5 "g4" None None None in
  Bed_seqids [g1; g2; g3; g4] = ["chr1"; "chr10"; "chr2"] ∧
  Bed_sub_beds [g1; g2; g3; g4] =
    [("chr1", [g2]); ("chr10", [g3]); ("chr2", [g1; g4])].
Proof. intros g1 g2 g3 g4. split; vm_compute; reflexivity. Qed.

(** ** Covered length *)

Lemma elem_of_positions z s e : z ∈ positions s e ↔ (s ≤ z ≤ e)%Z.
Proof.
  unfold positions. rewrite elem_of_list_to_set, elem_of_seqZ. lia.
Qed.

Lemma size_positions s e :
  (s ≤ e + 1)%Z → Z.of_nat (size (positions s e)) = (e - s + 1)%Z.
Proof.
  intros H. unfold positions.
  rewrite size_list_to_set by apply NoDup_seqZ. rewrite length_seqZ. lia.
Qed.

(** The sweep adds to the total the number of positions that the current
    interval and the intervals still to come cover. *)
Lemma sweep_covers l : ∀ cs ce total,
  (cs ≤ ce)%Z →
  Forall (λ p, cs ≤ p.1 ∧ p.1 ≤ p.2)%Z l →
  StronglySorted (λ p q, p.1 ≤ q.1)%Z l →
  sweep cs ce l total =
    (total + Z.of_nat (size (positions cs ce ∪ ⋃ (span <$> l))))%Z.
Proof.
  induction l as [|[s e] l IH]; intros cs ce total Hc Hall Hsort.
  - simpl. rewrite union_empty_r_L, size_positions by lia. done.
  - apply Forall_cons in Hall as [[Hs He] Hall]. simpl in Hs, He.
    apply StronglySorted_inv in Hsort as [Hsort Hhd].
    rewrite fmap_cons, union_list_cons. simpl sweep.
    destruct (Z.leb_spec s (ce + 1)) as [Hle|Hgt].
    + rewrite IH; [|lia| |done].
      * do 3 f_equal. apply set_eq. intros z.
        rewrite !elem_of_union. unfold span. simpl.
        rewrite !elem_of_positions.
        assert ((cs ≤ z ≤ Z.max ce e)%Z ↔ (cs ≤ z ≤ ce)%Z ∨ (s ≤ z ≤ e)%Z)
          by lia.
        tauto.
      * eapply Forall_impl; [exact Hall|]. simpl. lia.
    + rewrite IH; [|lia| |done].
      * assert (size (positions cs ce ∪ (span (s, e) ∪ ⋃ (span <$> l))) =
                size (positions cs ce) + size (span (s, e) ∪ ⋃ (span <$> l)))
          as ->.
        { apply size_union, elem_of_disjoint. intros z Hz1 Hz2.
          apply elem_of_positions in Hz1.
          apply elem_of_union in Hz2 as [Hz2|Hz2].
          { unfold span in Hz2. apply elem_of_positions in Hz2. simpl in Hz2. lia. }
          apply elem_of_union_list in Hz2 as (X & HX & Hz2).
          apply list_elem_of_fmap in HX as (q & -> & Hq).
          apply elem_of_positions in Hz2.
          pose proof (proj1 (Forall_forall _ _) Hhd q Hq) as Hsq.
          simpl in Hsq. lia. }
        rewrite Nat2Z.inj_add, size_positions by lia.
        unfold span at 2. simpl. lia.
      * apply Forall_forall. intros q Hq.
        pose proof (proj1 (Forall_forall _ _) Hhd q Hq) as Hsq.
        pose proof (proj1 (Forall_forall _ _) Hall q Hq) as [_ Hq2].
        simpl in Hsq. lia.
Qed.

Lemma pair_leb_fst a b : pair_leb a b → (a.1 ≤ b.1)%Z.
Proof.
  unfold pair_leb. destruct (Z.compare_spec a.1 b.1); [lia|lia|done].
Qed.

Lemma pair_leb_total a b : pair_leb a b ∨ pair_leb b a.
Proof.
  unfold pair_leb.
  destruct (Z.compare_spec a.1 b.1), (Z.compare_spec b.1 a.1);
    try lia; auto.
  destruct (Z.leb_spec a.2 b.2), (Z.leb_spec b.2 a.2); try lia; auto.
Qed.

Lemma pair_leb_trans a b c : pair_leb a b → pair_leb b c → pair_leb a c.
Proof.
  unfold pair_leb.
  destruct (Z.compare_spec a.1 b.1), (Z.compare_spec b.1 c.1),
    (Z.compare_spec a.1 c.1); try lia; try done.
  destruct (Z.leb_spec a.2 b.2), (Z.leb_spec b.2 c.2), (Z.leb_spec a.2 c.2);
    try lia; done.
Qed.

Lemma union_list_Permutation (Xs Ys : list (gset Z)) :
  Xs ≡ₚ Ys → ⋃ Xs = ⋃ Ys.
Proof.
  intros H. apply set_eq. intros z. rewrite !elem_of_union_list.
  split; intros (X & HX & Hz); exists X; split; try done.
  - by rewrite <- H.
  - by rewrite H.
Qed.

(** The total of a group is the number of positions its intervals
    cover. *)
Lemma group_union_covers l :
  Forall (λ p, p.1 ≤ p.2)%Z l →
  group_union l = Z.of_nat (size (⋃ (span <$> l))).
Proof.
  intros Hval. unfold group_union.
  pose proof (sort_by_Permutation pair_leb id l) as Hperm.
  pose proof (sort_by_sorted pair_leb id pair_leb_total pair_leb_trans l) as Hsort.
  rewrite <- (union_list_Permutation _ _ (fmap_Permutation span _ _ Hperm)).
  rewrite <- Hperm in Hval. clear Hperm.
  destruct (sort_by pair_leb id l) as [|[s e] l']; [done|].
  apply Forall_cons in Hval as [He Hval]. simpl in He.
  apply StronglySorted_inv in Hsort as [Hsort Hhd].
  rewrite sweep_covers; [by rewrite fmap_cons, union_list_cons|done| |].
  - apply Forall_forall. intros q Hq. split.
    + apply (pair_leb_fst (s, e) q).
      apply (proj1 (Forall_forall _ _) Hhd q Hq).
    + apply (proj1 (Forall_forall _ _) Hval q Hq).
  - eapply StronglySorted_weaken; [|exact Hsort].
    intros x y. apply pair_leb_fst.
Qed.

Lemma group_of_records (bed : list BedLine) s :
  group_of s ((λ x, (seqid x, start x, end_ x)) <$> bed) =
  (λ b, (start b, end_ b)) <$> Bed_sub_bed bed s.
Proof.
  unfold group_of, Bed_sub_bed. induction bed as [|b bed IH]; [done|].
  rewrite fmap_cons, !filter_cons.
  destruct (decide (seqid b = s)) as [Hb|Hb].
  - rewrite decide_True by done. rewrite fmap_cons. by rewrite IH.
  - rewrite decide_False by done. by rewrite IH.
Qed.

Lemma sum_Permutation {A} (g : A → Z) l l' :
  l ≡ₚ l' → foldr Z.add 0%Z (g <$> l) = foldr Z.add 0%Z (g <$> l').
Proof.
  induction 1; rewrite ?fmap_cons; simpl; [done|lia|lia|congruence].
Qed.

(** C4: on a collection of records with [start <= end], [sum] is the
    number of positions covered by the intervals of each seqid, added
    over the seqids; touching intervals [1,10] and [11,20] give 20,
    overlapping [1,10] and [5,15] give 15, disjoint [1,10] and [20,30]
    give 21, two seqids are counted apart, and the empty collection
    gives 0. *)
Theorem sum_counts_covered_positions :
  (∀ bed : list BedLine,
     Forall (λ b, start b ≤ end_ b)%Z bed →
     Bed_sum bed =
       foldr Z.add 0%Z
         ((λ s, Z.of_nat (size (covered bed s))) <$> Bed_seqids bed)) ∧
  (let r s e := mkBedLine "chr1" s e "g" None None None in
   Bed_sum [r 1 10; r 11 20]%Z = 20%Z ∧
   Bed_sum [r 1 10; r 5 15]%Z = 15%Z ∧
   Bed_sum [r 20 30; r 1 10]%Z = 21%Z ∧
   Bed_sum [r 1 10; mkBedLine "chr2" 1 10 "h" None None None]%Z = 20%Z ∧
   Bed_sum [] = 0%Z).
Proof.
  split; [|by vm_compute].
  intros bed Hval. unfold Bed_sum, range_union.
  rewrite <- list_fmap_compose.
  change ((λ r : string * Z * Z, r.1.1) ∘ (λ x, (seqid x, start x, end_ x)))
    with seqid.
  unfold Bed_seqids.
  rewrite (sum_Permutation _ _ _ (sorted_Permutation _)).
  f_equal. apply list_fmap_ext. intros _ s _.
  rewrite group_of_records, group_union_covers.
  - unfold covered. by rewrite <- list_fmap_compose.
  - apply Forall_fmap. unfold Bed_sub_bed.
    apply Forall_forall. intros b [_ Hb]%list_elem_of_filter.
    apply (proj1 (Forall_forall _ _) Hval b Hb).
Qed.

Lemma sum_counts_covered_positions_witness :
  let bed := [mkBedLine "chr1" 1 10 "a" None None None;
              mkBedLine "chr2" 3 4 "b" None None None;
              mkBedLine "chr1" 8 12 "c" None None None] in
  Forall (λ b, start b ≤ end_ b)%Z bed ∧
  Bed_sum bed = 14%Z ∧
  foldr Z.add 0%Z ((λ s, Z.of_nat (size (covered bed s))) <$> Bed_seqids bed)
    = 14%Z.
Proof.
  intros bed.
  assert (Forall (λ b, start b ≤ end_ b)%Z bed) as H.
  { repeat constructor; simpl; lia. }
  assert (Bed_sum bed = 14%Z) as Hs by (vm_compute; reflexivity).
  split; [exact H|]. split; [exact Hs|].
  rewrite <- (proj1 sum_counts_covered_positions bed H). exact Hs.
Defined.

(** * Further properties of the module *)

(** ** Columns and blanks *)

Lemma split_no_sep sep s : no_char sep s → Py.split sep s = [s].
Proof.
  unfold no_char. induction s as [|a s IH]; [done|].
  intros [Ha Hs]%andb_True. simpl.
  rewrite Ascii.eqb_sym in Ha. apply negb_True, Is_true_false in Ha.
  rewrite Ascii.eqb_sym in Ha. rewrite Ha, IH; done.
Qed.

Lemma split_app_sep sep s rest :
  no_char sep s →
  Py.split sep (s +:+ String sep rest) = s :: Py.split sep rest.
Proof.
  unfold no_char. induction s as [|a s IH].
  - intros _. change ("" +:+ String sep rest) with (String sep rest).
    simpl. by rewrite Ascii.eqb_refl.
  - intros [Ha Hs]%andb_True. rewrite app_String. simpl.
    apply negb_True, Is_true_false in Ha. rewrite Ha, IH; done.
Qed.

(** Splitting what [join] has joined gives the columns back, when no
    column holds the separator. *)
Lemma split_join (l : list string) :
  l ≠ [] → Forall (λ s, no_char Py.tab s) l →
  Py.split Py.tab (Py.join Py.tab_s l) = l.
Proof.
  induction l as [|x l IH]; [done|]. intros _ [Hx Hl]%Forall_cons.
  destruct l as [|y l]; [by apply split_no_sep|].
  rewrite join_cons. change (Py.tab_s +:+ ?t) with (String Py.tab t).
  rewrite split_app_sep by done. by rewrite IH.
Qed.

Lemma split_fields_no_sep sep s : Forall (λ c, no_char sep c) (Py.split sep s).
Proof.
  induction s as [|a s IH]; simpl; [by repeat constructor|].
  destruct (Ascii.eqb a sep) eqn:Ha; [by constructor|].
  destruct (Py.split sep s) as [|w ws] eqn:Hs; [by apply split_not_nil in Hs|].
  apply Forall_cons in IH as [Hw Hws]. constructor; [|done].
  unfold no_char in *. simpl. by rewrite Ha.
Qed.

Lemma rstrip_with_clean p s c :
  Py.last_char s = Ok c → p c = false → Py.rstrip_with p s = s.
Proof.
  intros Hc Hp. induction s as [|a s IH]; [done|].
  destruct s as [|b s].
  - injection Hc as ->. simpl. by rewrite Hp.
  - change (Py.rstrip_with p (String a (String b s)))
      with (match Py.rstrip_with p (String b s) with
            | "" => if p a then "" else String a ""
            | r => String a r
            end).
    by rewrite IH.
Qed.

Lemma strip_clean s : clean_head s → clean_tail s → Py.strip s = s.
Proof.
  unfold clean_head, clean_tail, Py.strip. intros Hh Ht.
  destruct s as [|a s]; [done|].
  apply negb_True, Is_true_false in Hh. simpl Py.lstrip_with. rewrite Hh.
  destruct (Py.last_char (String a s)) as [c|] eqn:Hc; [|done].
  apply negb_True, Is_true_false in Ht. by apply (rstrip_with_clean _ _ c).
Qed.

Lemma rstrip_with_tail p s :
  match Py.last_char (Py.rstrip_with p s) with
  | Ok c => p c = false
  | Raise _ => Py.rstrip_with p s = ""
  end.
Proof.
  induction s as [|a s IH]; [done|]. simpl.
  destruct (Py.rstrip_with p s) as [|b r] eqn:Hr.
  - destruct (p a) eqn:Ha; simpl; done.
  - change (Py.last_char (String a (String b r)))
      with (Py.last_char (String b r)).
    destruct (Py.last_char (String b r)); [done|]. done.
Qed.

(** A trimmed line is empty or starts and ends with a character that is
    not blank. *)
Lemma strip_result_clean line :
  Py.strip line = "" ∨ (clean_head (Py.strip line) ∧ clean_tail (Py.strip line)).
Proof.
  unfold Py.strip.
  pose proof (lstrip_with_head Ascii.is_space line) as Hl.
  destruct (Py.lstrip_with Ascii.is_space line) as [|a s]; [by left|].
  right. destruct (rstrip_with_head _ a s Hl) as [r Hr].
  pose proof (rstrip_with_tail Ascii.is_space (String a s)) as Ht.
  rewrite Hr in *. split.
  - simpl. by rewrite Hl.
  - unfold clean_tail. destruct (Py.last_char (String a r)) as [c|]; [|done].
    by rewrite Ht.
Qed.

Lemma last_char_app (s t : string) :
  t ≠ "" → Py.last_char (s +:+ t) = Py.last_char t.
Proof.
  intros Ht. induction s as [|a s IH]; [done|].
  rewrite app_String. simpl. rewrite IH.
  destruct (s +:+ t) eqn:E; [|done]. destruct s, t; done.
Qed.

Lemma last_char_join sep (l : list string) x :
  last l = Some x → x ≠ "" →
  Py.last_char (Py.join sep l) = Py.last_char x.
Proof.
  intros Hl Hx. induction l as [|y l IH]; [done|].
  destruct l as [|z l]; [by injection Hl as ->|].
  assert (Py.last_char (Py.join sep (z :: l)) = Py.last_char x) as Hc
    by by apply IH.
  rewrite join_cons, <- app_assoc_s. rewrite last_char_app; [done|].
  intros E. rewrite E in Hc.
  destruct (last_char_nonempty x Hx) as [c Hxc]. by rewrite Hxc in Hc.
Qed.

(** The last column of a line that does not end with the separator ends
    as the line does. *)
Lemma split_last sep s c :
  Py.last_char s = Ok c → Ascii.eqb c sep = false →
  ∃ x, last (Py.split sep s) = Some x ∧ Py.last_char x = Ok c.
Proof.
  intros Hc Hsep. induction s as [|a s IH]; [done|].
  destruct s as [|b s].
  - injection Hc as ->. simpl. rewrite Hsep. by exists (String c "").
  - destruct IH as (x & Hx & Hxc); [done|].
    change (Py.split sep (String a (String b s)))
      with (if Ascii.eqb a sep then "" :: Py.split sep (String b s)
            else match Py.split sep (String b s) with
                 | [] => [String a ""]
                 | w :: ws => String a w :: ws
                 end).
    destruct (Py.split sep (String b s)) as [|w ws] eqn:Hs; [done|].
    destruct (Ascii.eqb a sep).
    + exists x. split; [|done]. by rewrite last_cons, Hx.
    + destruct ws as [|w' ws].
      * injection Hx as ->. exists (String a x). split; [done|].
        simpl. rewrite Hxc. by destruct x.
      * exists x. split; [|done]. rewrite !last_cons in *.
        by destruct (last ws).
Qed.

Lemma str_chars n :
  Py.all_chars (λ a, Py.is_digit a || Ascii.eqb a "-") (Py.str n).
Proof.
  assert (∀ d, Py.all_chars (λ a, Py.is_digit a || Ascii.eqb a "-")
                 (NilZero.string_of_uint d)) as Hd.
  { intros d. apply (all_chars_impl Py.is_digit).
    - intros a Ha. apply orb_True. by left.
    - destruct d; [by vm_compute|apply (string_of_uint_digits _)..]. }
  unfold Py.str. destruct (Z.to_int n) as [d|d]; [apply Hd|].
  change (Is_true ((Py.is_digit "-" || Ascii.eqb "-" "-") &&
            Py.all_chars (λ a, Py.is_digit a || Ascii.eqb a "-")
              (NilZero.string_of_uint d))).
  apply andb_True. split; [done|apply Hd].
Qed.

Lemma str_no_char c n :
  Py.is_digit c = false → Ascii.eqb c "-" = false → no_char c (Py.str n).
Proof.
  intros Hc1 Hc2. unfold no_char. eapply all_chars_impl; [|apply str_chars].
  intros a Ha. apply negb_True. intros Heq%Is_true_true%Ascii.eqb_eq. subst a.
  rewrite Hc1, Hc2 in Ha. done.
Qed.

Lemma BedLine_str_columns r : BedLine_str r = Py.join Py.tab_s (columns r).
Proof. apply BedLine_str_fields. Qed.

(** The line printed for a printable record splits into its columns. *)
Lemma split_line_printed r :
  printable r → split_line (BedLine_str r) = columns r.
Proof.
  intros (_ & _ & _ & Htab & Hhead & Htail).
  rewrite BedLine_str_columns. unfold split_line.
  apply Forall_cons in Htab as [Hsid Htab].
  assert (Py.strip (Py.join Py.tab_s (columns r)) = Py.join Py.tab_s (columns r)) as ->.
  { apply strip_clean.
    - unfold columns. destruct (seqid r) as [|a w]; [done|].
      simpl app. by rewrite join_String.
    - destruct (last (accn r :: default [] (extra r))) as [x|] eqn:Hx; [|done].
      simpl in Htail. unfold clean_tail in *.
      assert (x ≠ "") as Hne by (intros ->; done).
      rewrite (last_char_join _ _ x); [done| |done].
      unfold columns. simpl app. by rewrite !last_cons_cons. }
  apply split_join; [done|]. unfold columns. simpl app.
  apply Forall_cons in Htab as [Hacc Hext].
  repeat (constructor; [done || by apply str_no_char|]). done.
Qed.

(** What [__init__] has read, when it returns a record. *)
Lemma BedLine_init_Ok_inv line r :
  BedLine_init line = Ok r →
  ∃ sid s1 s2 acc rest a b,
    split_line line = sid :: s1 :: s2 :: acc :: rest ∧
    Py.int s1 = Ok a ∧ Py.int s2 = Ok b ∧ (a + 1 ≤ b)%Z ∧
    r = mkBedLine sid (a + 1) b acc
          (match rest with [] => None | _ => Some rest end)
          (rest !! 0) (rest !! 1).
Proof.
  intros H.
  destruct (split_line line) as [|sid [|s1 [|s2 [|acc rest]]]] eqn:Hc.
  1-4: unfold BedLine_init in H; rewrite Hc in H; simpl in H; try done.
  - destruct (Py.int s1); done.
  - destruct (Py.int s1) as [a|]; simpl in H; [|done].
    destruct (Py.int s2) as [b|]; simpl in H; [|done].
    destruct (a + 1 <=? b)%Z; done.
  - destruct (Py.int s1) as [a|] eqn:Ha; cycle 1.
    { unfold BedLine_init in H. rewrite Hc in H. simpl in H.
      by rewrite Ha in H. }
    destruct (Py.int s2) as [b|] eqn:Hb; cycle 1.
    { unfold BedLine_init in H. rewrite Hc in H. simpl in H.
      rewrite Ha in H. simpl in H. by rewrite Hb in H. }
    rewrite (BedLine_init_columns _ _ _ _ _ _ _ _ Hc Ha Hb) in H.
    destruct (Z.leb_spec (a + 1) b); [|done]. injection H as <-.
    by exists sid, s1, s2, acc, rest, a, b.
Qed.

(** ** Parsing: success and failure *)

(** X1: [BedLine.__init__] returns a record exactly when the trimmed line
    has at least four columns, the second and third are integers for
    [int], and the converted coordinates are in order; the record is
    then made of these columns. *)
Theorem parse_succeeds_iff line r :
  BedLine_init line = Ok r ↔
  ∃ sid s1 s2 acc rest a b,
    split_line line = sid :: s1 :: s2 :: acc :: rest ∧
    Py.int s1 = Ok a ∧ Py.int s2 = Ok b ∧ (a + 1 ≤ b)%Z ∧
    r = mkBedLine sid (a + 1) b acc
          (match rest with [] => None | _ => Some rest end)
          (rest !! 0) (rest !! 1).
Proof.
  split; [apply BedLine_init_Ok_inv|].
  intros (sid & s1 & s2 & acc & rest & a & b & Hc & Ha & Hb & Hle & ->).
  rewrite (BedLine_init_columns _ _ _ _ _ _ _ _ Hc Ha Hb).
  by destruct (Z.leb_spec (a + 1) b); [|lia].
Qed.

Lemma int_Raise s e : Py.int s = Raise e → e = ValueError.
Proof.
  unfold Py.int.
  assert (∀ (neg : bool) (d : string),
    match NilZero.uint_of_string d with
    | Some u => Ok (if neg then (- Z.of_uint u)%Z else Z.of_uint u)
    | None => Raise ValueError
    end = Raise e → e = ValueError) as Hd.
  { intros neg d. destruct (NilZero.uint_of_string d); [done|]. congruence. }
  destruct (Py.strip s) as [|a t]; [apply (Hd false)|].
  destruct a as [[] [] [] [] [] [] [] []];
    first [apply (Hd false)|apply (Hd true)].
Qed.

(** X2: what each failure of [BedLine.__init__] means: [IndexError], a
    trimmed line of fewer than four columns; [ValueError], a second or
    third column that is not an integer; the assertion failure, two
    integer coordinates out of order, with the message that shows them.
    Nothing else is raised. *)
Theorem parse_failure_kinds line e :
  BedLine_init line = Raise e →
  (e = IndexError ∧ length (split_line line) < 4) ∨
  (e = ValueError ∧
   ∃ i s, (i = 1 ∨ i = 2) ∧ split_line line !! i = Some s ∧
          Py.int s = Raise ValueError) ∨
  (∃ s1 s2 a b,
     split_line line !! 1 = Some s1 ∧ split_line line !! 2 = Some s2 ∧
     Py.int s1 = Ok a ∧ Py.int s2 = Ok b ∧ ¬ (a + 1 ≤ b)%Z ∧
     e = AssertionError (coord_msg (a + 1) b)).
Proof.
  unfold BedLine_init. generalize (split_line line). intros args.
  destruct args as [|sid [|s1 args]].
  { simpl. intros [= <-]. left. split; [done|simpl; lia]. }
  { simpl. intros [= <-]. left. split; [done|simpl; lia]. }
  simpl. destruct (Py.int s1) as [a|e1] eqn:Ha; simpl; cycle 1.
  { intros [= <-]. right. left. pose proof (int_Raise _ _ Ha) as ->.
    split; [done|]. exists 1, s1. repeat split; auto. }
  destruct args as [|s2 args].
  { simpl. intros [= <-]. left. split; [done|simpl; lia]. }
  simpl. destruct (Py.int s2) as [b|e2] eqn:Hb; simpl; cycle 1.
  { intros [= <-]. right. left. pose proof (int_Raise _ _ Hb) as ->.
    split; [done|]. exists 2, s2. repeat split; auto. }
  destruct (Z.leb_spec (a + 1) b); simpl.
  - destruct args; simpl; [|done]. intros [= <-]. left. split; [done|simpl; lia].
  - intros [= <-]. right. right. exists s1, s2, a, b.
    repeat split; try done. lia.
Qed.

Lemma parse_failure_kinds_witness :
  BedLine_init (tsv ["chr1"; "10"; "5"]) = Raise (AssertionError "start=11 end=5") ∧
  ∃ s1 s2 a b,
     split_line (tsv ["chr1"; "10"; "5"]) !! 1 = Some s1 ∧
     split_line (tsv ["chr1"; "10"; "5"]) !! 2 = Some s2 ∧
     Py.int s1 = Ok a ∧ Py.int s2 = Ok b ∧ ¬ (a + 1 ≤ b)%Z.
Proof.
  assert (BedLine_init (tsv ["chr1"; "10"; "5"]) =
          Raise (AssertionError "start=11 end=5")) as H by reflexivity.
  split; [exact H|].
  destruct (parse_failure_kinds _ _ H)
    as [[[=] _]|[[[=] _]|(s1 & s2 & a & b & H1 & H2 & Ha & Hb & Hn & _)]].
  by exists s1, s2, a, b.
Defined.

(** ** Printing and parsing again *)

Lemma parse_printed_record_helper r :
  printable r → BedLine_init (BedLine_str r) = Ok r.
Proof.
  intros Hp. pose proof (split_line_printed r Hp) as Hc.
  destruct Hp as (Hle & [Hsc Hst] & Hex & _).
  unfold columns in Hc. simpl app in Hc.
  rewrite (BedLine_init_columns _ _ _ _ _ _ _ _ Hc (int_str _) (int_str _)).
  destruct (Z.leb_spec (start r - 1 + 1) (end_ r)); [|lia].
  f_equal. destruct r as [sid st en acc ex sc sd]. simpl in *.
  replace (st - 1 + 1)%Z with st by lia.
  destruct ex as [[|x xs]|]; simpl in *; [done|by subst..].
Qed.

(** X3: parsing the line that [__str__] prints for a printable record
    gives the record back. *)
Theorem parse_printed_record r :
  printable r → BedLine_init (BedLine_str r) = Ok r.
Proof. apply parse_printed_record_helper. Qed.

Lemma parse_printed_record_witness :
  let r := mkBedLine "chr 1" (-3) 20 "gene one"
             (Some ["0"; ""; "x y"]) (Some "0") (Some "") in
  printable r ∧ BedLine_init (BedLine_str r) = Ok r.
Proof.
  intros r.
  assert (printable r) as H.
  { split; [simpl; lia|]. split; [by split|]. split; [done|].
    split; [by repeat constructor|]. by split. }
  split; [exact H|]. apply (parse_printed_record r H).
Defined.

Lemma parsed_printable line r : BedLine_init line = Ok r → printable r.
Proof.
  intros H. pose proof (BedLine_init_views _ _ H) as Hv.
  pose proof (BedLine_init_ordered _ _ H) as Ho.
  apply BedLine_init_Ok_inv in H
    as (sid & s1 & s2 & acc & rest & a & b & Hc & Ha & Hb & Hle & ->).
  assert (default [] match rest with [] => None | _ :: _ => Some rest end = rest)
    as Hrest by by destruct rest.
  split; [done|]. split; [done|]. split; [by destruct rest|].
  unfold text_fields. simpl. rewrite Hrest.
  pose proof (split_fields_no_sep Py.tab (Py.strip line)) as Hf.
  unfold split_line in Hc. rewrite Hc in Hf.
  apply Forall_cons in Hf as [Hsid Hf]. apply Forall_cons in Hf as [_ Hf].
  apply Forall_cons in Hf as [_ Hf].
  split; [by constructor|].
  destruct (strip_result_clean line) as [Hnil|[Hh Ht]].
  { by rewrite Hnil in Hc. }
  split.
  - destruct (Py.strip line) as [|c t]; [done|]. simpl in Hh, Hc.
    assert (Ascii.eqb c Py.tab = false) as Hct.
    { destruct (Ascii.eqb_spec c Py.tab) as [->|]; done. }
    rewrite Hct in Hc. destruct (Py.split Py.tab t); by injection Hc as <-.
  - unfold clean_tail in Ht.
    destruct (Py.last_char (Py.strip line)) as [c|] eqn:Hlc; [|done].
    destruct (split_last Py.tab _ c Hlc) as (x & Hx & Hxc).
    { destruct (Ascii.eqb_spec c Py.tab) as [->|]; done. }
    rewrite Hc, !last_cons_cons in Hx. rewrite Hx. simpl.
    unfold clean_tail. by rewrite Hxc.
Qed.

(** X4: every record that [BedLine.__init__] returns is printable: the
    line printed for it is parsed into the same record, so that printing
    a parsed line a second time changes nothing. *)
Theorem print_parse_stable line r :
  BedLine_init line = Ok r →
  printable r ∧
  BedLine_init (BedLine_str r) = Ok r ∧
  split_line (BedLine_str r) = columns r.
Proof.
  intros H. pose proof (parsed_printable _ _ H) as Hp.
  split; [done|]. split; [by apply parse_printed_record_helper|].
  by apply split_line_printed.
Qed.

Lemma print_parse_stable_witness :
  let line := file_line ["  chr1"; "+007"; " 10 "; "g1"; "0"; "+"] in
  let r := mkBedLine "chr1" 8 10 "g1" (Some ["0"; "+"]) (Some "0") (Some "+") in
  BedLine_init line = Ok r ∧
  BedLine_str r = tsv ["chr1"; "7"; "10"; "g1"; "0"; "+"] ∧
  BedLine_init (BedLine_str r) = Ok r.
Proof.
  intros line r.
  assert (BedLine_init line = Ok r) as H by reflexivity.
  split; [exact H|]. split; [reflexivity|].
  apply (print_parse_stable line r H).
Defined.

(** ** Files *)

Lemma no_char_app c (s t : string) :
  no_char c s → no_char c t → no_char c (s +:+ t).
Proof.
  unfold no_char. intros Hs Ht. induction s as [|a s IH]; [done|].
  rewrite app_String. simpl in *. apply andb_True in Hs as [Ha Hs].
  apply andb_True. split; [done|]. by apply IH.
Qed.

Lemma no_char_join c (l : list string) :
  no_char c Py.tab_s → Forall (λ s, no_char c s) l →
  no_char c (Py.join Py.tab_s l).
Proof.
  intros Hsep. induction 1 as [|x l Hx Hl IH]; [done|].
  destruct l as [|y l]; [done|]. rewrite join_cons.
  apply no_char_app; [done|]. by apply no_char_app.
Qed.

Lemma BedLine_str_no_nl r :
  Forall (λ s, no_char nl s) (text_fields r) → no_char nl (BedLine_str r).
Proof.
  intros [Hsid [Hacc Hex]%Forall_cons]%Forall_cons.
  rewrite BedLine_str_columns. apply no_char_join; [done|].
  unfold columns. simpl app.
  repeat (constructor; [done || by apply str_no_char|]). done.
Qed.

Lemma file_lines_app s rest :
  no_char nl s →
  file_lines (s +:+ String nl rest) = (s +:+ String nl "") :: file_lines rest.
Proof.
  unfold no_char. induction s as [|a s IH].
  - intros _. done.
  - intros [Ha Hs]%andb_True. rewrite !app_String.
    apply negb_True, Is_true_false in Ha.
    change (file_lines (String a (s +:+ String nl rest)))
      with (if Ascii.eqb a nl then String a "" :: file_lines (s +:+ String nl rest)
            else match file_lines (s +:+ String nl rest) with
                 | [] => [String a ""]
                 | l :: ls => String a l :: ls
                 end).
    by rewrite Ha, IH.
Qed.

(** No line of a file is empty. *)
Lemma file_lines_nonempty content : Forall (λ l, l ≠ "") (file_lines content).
Proof.
  induction content as [|a s IH]; simpl; [constructor|].
  destruct (Ascii.eqb a nl); [by constructor|].
  destruct (file_lines s) as [|l ls]; [by repeat constructor|].
  apply Forall_cons in IH as [_ IH]. by constructor.
Qed.

Lemma BedLine_init_ext l1 l2 :
  split_line l1 = split_line l2 → BedLine_init l1 = BedLine_init l2.
Proof. unfold BedLine_init. by intros ->. Qed.

Lemma split_line_nl s :
  clean_head s → split_line (s +:+ String nl "") = split_line s.
Proof.
  intros Hh. unfold split_line, Py.strip. f_equal.
  destruct s as [|a s]; [done|]. simpl in Hh.
  apply negb_True, Is_true_false in Hh.
  rewrite app_String. simpl Py.lstrip_with. rewrite Hh.
  rewrite <- app_String. by apply rstrip_with_snoc.
Qed.

Lemma BedLine_str_head r a w :
  seqid r = String a w → ∃ t, BedLine_str r = String a t.
Proof.
  intros Hs. rewrite BedLine_str_columns. unfold columns. rewrite Hs.
  simpl app. rewrite join_String. eauto.
Qed.

(** The line written for a record is read back as the record. *)
Lemma parse_written_line r :
  printable r → BedLine_init (BedLine_str r +:+ String nl "") = Ok r.
Proof.
  intros Hp. rewrite <- (parse_printed_record_helper r Hp).
  apply BedLine_init_ext, split_line_nl.
  destruct Hp as (_ & _ & _ & _ & Hh & _).
  destruct (seqid r) as [|a w] eqn:Hs; [done|].
  destruct (BedLine_str_head r a w Hs) as [t ->]. done.
Qed.

Lemma is_comment_written r :
  printable r →
  is_comment (BedLine_str r +:+ String nl "") = is_comment (seqid r).
Proof.
  intros (_ & _ & _ & _ & Hh & _).
  destruct (seqid r) as [|a w] eqn:Hs; [done|].
  destruct (BedLine_str_head r a w Hs) as [t ->]. done.
Qed.

Lemma load_lines_cons line rest :
  line ≠ "" →
  load_lines (line :: rest) =
    if is_comment line then load_lines rest
    else b ← BedLine_init line; bs ← load_lines rest; Ok (b :: bs).
Proof. destruct line; done. Qed.

(** A list that is sorted is left as it is. *)
Lemma sort_by_sorted_id {A K} (leb : K → K → bool) (key : A → K) l :
  StronglySorted (λ x y, leb (key x) (key y)) l → sort_by leb key l = l.
Proof.
  induction 1 as [|x l Hs IH Hx]; [done|]. simpl. rewrite IH.
  destruct l as [|y l]; [done|]. simpl.
  apply Forall_cons in Hx as [Hxy _]. by destruct (leb (key x) (key y)).
Qed.

Lemma load_written (bed : list BedLine) :
  Forall storable bed → load_lines (file_lines (Bed_print_to_file bed)) = Ok bed.
Proof.
  induction 1 as [|r bed (Hp & Hnl & Hc) Hbed IH]; [done|].
  simpl Bed_print_to_file.
  rewrite file_lines_app by by apply BedLine_str_no_nl.
  rewrite load_lines_cons by by destruct (BedLine_str r).
  rewrite is_comment_written, Hc, parse_written_line by done.
  simpl. by rewrite IH.
Qed.

(** X5: a collection of storable records written by [print_to_file] is
    read back line by line as the same records in the same order; when
    the collection is sorted under a key, [Bed(filename, key)] on the
    written file returns the collection itself. *)
Theorem print_then_load (bed : list BedLine) :
  Forall storable bed →
  load_lines (file_lines (Bed_print_to_file bed)) = Ok bed ∧
  ∀ (K : Type) (leb : K → K → bool) (key : BedLine → K) (filename : string),
    filename ≠ "" →
    StronglySorted (λ x y, leb (key x) (key y)) bed →
    Bed_init leb (λ _, Ok (file_lines (Bed_print_to_file bed)))
      (Some filename) key = Ok bed.
Proof.
  intros Hbed. pose proof (load_written bed Hbed) as Hload.
  split; [done|]. intros K leb key filename Hf Hsorted.
  unfold Bed_init. destruct filename; [done|]. simpl.
  rewrite Hload. simpl. by rewrite sort_by_sorted_id.
Qed.

Lemma print_then_load_witness :
  let bed := [mkBedLine "chr1" 11 20 "g3" (Some ["0"; "+"]) (Some "0") (Some "+");
              mkBedLine "chr1" 51 80 "g2" None None None;
              mkBedLine "chr2" 101 200 "g 1" (Some ["7"]) (Some "7") None] in
  Forall storable bed ∧
  load_lines (file_lines (Bed_print_to_file bed)) = Ok bed ∧
  Bed_init_default (λ _, Ok (file_lines (Bed_print_to_file bed)))
    (Some "genes.bed") = Ok bed.
Proof.
  intros bed.
  assert (Forall storable bed) as H.
  { repeat constructor; simpl; try lia; try done. }
  split; [exact H|].
  destruct (print_then_load bed H) as [Hload Hinit].
  split; [exact Hload|].
  apply (Hinit _ tuple_leb default_key "genes.bed"); [discriminate|].
  repeat constructor.
Defined.

(** X6: loading the lines of a file succeeds exactly when every line
    that does not start with [#] is parsed, and the records are then
    those of these lines, in their order; the lines that start with [#]
    play no part. *)
Theorem load_lines_iff content bed :
  load_lines (file_lines content) = Ok bed ↔
  Forall2 (λ line b, BedLine_init line = Ok b)
    (filter (λ line, is_comment line = false) (file_lines content)) bed.
Proof.
  pose proof (file_lines_nonempty content) as Hne.
  revert bed. induction Hne as [|line lines Hline Hlines IH]; intros bed.
  - simpl. split; [by intros [= <-]; constructor|]. by intros ->%Forall2_nil_inv_l.
  - rewrite load_lines_cons, filter_cons by done.
    destruct (decide (is_comment line = false)) as [Hc|Hc].
    + rewrite Hc.
      destruct (BedLine_init line) as [b|e] eqn:Hb; simpl.
      * destruct (load_lines lines) as [bs|e] eqn:Hbs; simpl.
        { split.
          - intros [= <-]. constructor; [done|]. by apply IH.
          - intros (b' & bs' & Hb' & Hbs' & ->)%Forall2_cons_inv_l.
            apply IH in Hbs'. congruence. }
        { split; [done|].
          intros (b' & bs' & Hb' & Hbs' & ->)%Forall2_cons_inv_l.
          by apply IH in Hbs'. }
      * split; [done|].
        intros (b' & bs' & Hb' & Hbs' & ->)%Forall2_cons_inv_l. congruence.
    + apply not_false_is_true in Hc. rewrite Hc. apply IH.
Qed.

Lemma load_lines_app_failure l1 bad l2 r1 e :
  load_lines l1 = Ok r1 →
  bad ≠ "" → is_comment bad = false →
  BedLine_init bad = Raise e →
  load_lines (l1 ++ bad :: l2) = Raise e.
Proof.
  intros Hl1 Hne Hc Hbad. revert r1 Hl1.
  induction l1 as [|line l1 IH]; intros r1 Hl1.
  - simpl app. rewrite load_lines_cons, Hc, Hbad by done. done.
  - destruct line as [|c t]; [done|].
    rewrite <- app_comm_cons.
    rewrite load_lines_cons in Hl1 |- * by done.
    destruct (is_comment (String c t)); [by eapply IH|].
    destruct (BedLine_init (String c t)); simpl in *; [|done].
    destruct (load_lines l1) as [bs|] eqn:Hbs; simpl in *; [|done].
    by rewrite (IH bs).
Qed.

(** X7: the load stops at the first line that is not parsed: when the
    lines before it are loaded, the failure of that line is the failure
    of the whole load, whatever follows. *)
Theorem load_stops_at_first_failure l1 bad l2 r1 e :
  load_lines l1 = Ok r1 →
  bad ≠ "" → is_comment bad = false →
  BedLine_init bad = Raise e →
  load_lines (l1 ++ bad :: l2) = Raise e.
Proof. apply load_lines_app_failure. Qed.

Lemma load_stops_at_first_failure_witness :
  let l1 := [file_line ["chr1"; "10"; "20"; "g1"]; file_line ["# a comment"]] in
  let bad := file_line ["chr1"; "ten"; "20"; "g2"] in
  let l2 := [file_line ["chr1"; "30"; "20"; "g3"]] in
  load_lines l1 = Ok [mkBedLine "chr1" 11 20 "g1" None None None] ∧
  bad ≠ "" ∧ is_comment bad = false ∧
  BedLine_init bad = Raise ValueError ∧
  load_lines (l1 ++ bad :: l2) = Raise ValueError.
Proof.
  intros l1 bad l2.
  assert (load_lines l1 = Ok [mkBedLine "chr1" 11 20 "g1" None None None])
    as H1 by reflexivity.
  assert (bad ≠ "") as H2 by discriminate.
  assert (is_comment bad = false) as H3 by reflexivity.
  assert (BedLine_init bad = Raise ValueError) as H4 by reflexivity.
  repeat (split; [assumption|]).
  apply (load_stops_at_first_failure l1 bad l2 _ _ H1 H2 H3 H4).
Defined.

Lemma lstrip_with_all p s : Py.all_chars p s → Py.lstrip_with p s = "".
Proof.
  induction s as [|a s IH]; [done|]. simpl. intros [Ha Hs]%andb_True.
  apply Is_true_true in Ha. rewrite Ha. by apply IH.
Qed.

Lemma blank_line_IndexError line :
  Py.all_chars Ascii.is_space line →
  BedLine_init line = Raise IndexError ∧ is_comment line = false.
Proof.
  intros Hb. split.
  - unfold BedLine_init, split_line, Py.strip. by rewrite lstrip_with_all.
  - destruct line as [|a t]; [done|]. simpl in Hb.
    apply andb_True in Hb as [Ha _]. unfold is_comment. simpl.
    destruct (Ascii.eqb_spec a Py.hash) as [->|]; done.
Qed.

(** X8: a line made of blanks only, such as an empty line at the end of
    a file, is not skipped: when the lines before it are loaded, the
    load fails with [IndexError]. *)
Theorem load_fails_on_blank_line l1 blank l2 r1 :
  load_lines l1 = Ok r1 →
  blank ≠ "" → Py.all_chars Ascii.is_space blank →
  load_lines (l1 ++ blank :: l2) = Raise IndexError.
Proof.
  intros Hl1 Hne Hb. destruct (blank_line_IndexError blank Hb) as [Hi Hc].
  by apply (load_lines_app_failure l1 blank l2 r1).
Qed.

Lemma load_fails_on_blank_line_witness :
  let l1 := file_lines (file_line ["chr1"; "10"; "20"; "g1"]) in
  let blank := String nl "" in
  load_lines l1 = Ok [mkBedLine "chr1" 11 20 "g1" None None None] ∧
  blank ≠ "" ∧ Py.all_chars Ascii.is_space blank ∧
  file_lines (file_line ["chr1"; "10"; "20"; "g1"] +:+ blank) = (l1 ++ [blank])%list ∧
  load_lines (l1 ++ [blank]) = Raise IndexError.
Proof.
  intros l1 blank.
  assert (load_lines l1 = Ok [mkBedLine "chr1" 11 20 "g1" None None None])
    as H1 by reflexivity.
  assert (blank ≠ "") as H2 by discriminate.
  assert (Is_true (Py.all_chars Ascii.is_space blank)) as H3 by exact I.
  split; [exact H1|]. split; [exact H2|]. split; [exact H3|].
  split; [reflexivity|].
  apply (load_fails_on_blank_line l1 blank [] _ H1 H2 H3).
Defined.

Lemma load_lines_printable lines recs :
  load_lines lines = Ok recs → Forall printable recs.
Proof.
  revert recs. induction lines as [|line lines IH]; intros recs.
  - by intros [= <-].
  - destruct line as [|c t]; [done|].
    rewrite load_lines_cons by done.
    destruct (is_comment (String c t)); [apply IH|].
    destruct (BedLine_init (String c t)) as [b|] eqn:Hb; simpl; [|done].
    destruct (load_lines lines) as [bs|]; simpl; [|done].
    intros [= <-]. constructor; [by eapply parsed_printable|by apply IH].
Qed.

Lemma printable_seqid r : printable r → seqid r ≠ "".
Proof. intros (_ & _ & _ & _ & Hh & _) Hs. by rewrite Hs in Hh. Qed.

(** X9: every record of a collection that [Bed.__init__] returns keeps
    what the parser checked: its coordinates are in order, its seqid is
    not empty, its score and strand are its first two extra columns, and
    it is printable; this holds for any key, total or not. *)
Theorem loaded_records_valid {K} (leb : K → K → bool) open filename key bed :
  Bed_init leb open filename key = Ok bed →
  Forall (λ r, (start r ≤ end_ r)%Z ∧ seqid r ≠ "" ∧ views_ok r ∧ printable r)
    bed.
Proof.
  intros (recs & Hrecs & ->)%Bed_init_Ok.
  rewrite sort_by_Permutation.
  assert (Forall printable recs) as Hp.
  { unfold loaded in Hrecs. destruct (Py.truthy filename).
    - destruct Hrecs as (lines & _ & Hl). by eapply load_lines_printable.
    - subst recs. constructor. }
  eapply Forall_impl; [exact Hp|]. intros r Hr.
  split; [by destruct Hr|]. split; [by apply printable_seqid|].
  split; [by destruct Hr as (_ & ? & _)|done].
Qed.

Lemma loaded_records_valid_witness :
  let open := λ _ : string,
    Ok [file_line ["chr2"; "100"; "200"; "g1"; "0"; "-"];
        file_line ["chr1"; "50"; "80"; "g2"]] in
  ∃ bed, Bed_init_default open (Some "genes.bed") = Ok bed ∧
         Forall (λ r, (start r ≤ end_ r)%Z ∧ seqid r ≠ "" ∧ views_ok r ∧
                      printable r) bed.
Proof.
  intros open. eexists. split; [reflexivity|].
  apply (loaded_records_valid tuple_leb open (Some "genes.bed") default_key).
  reflexivity.
Defined.

(** ** Reverse complement: failures, invariants, printing *)

Lemma snoc_neq (s : string) c : s +:+ String c "" ≠ s.
Proof.
  induction s as [|a s IH]; [done|]. rewrite app_String. by intros [= ?].
Qed.

Lemma toggle_marker_neq s : toggle_marker s ≠ s.
Proof.
  unfold toggle_marker. destruct (has_marker s) eqn:Hm.
  - intros Heq. apply has_marker_snoc in Hm. rewrite Heq in Hm.
    symmetry in Hm. by apply snoc_neq in Hm.
  - apply snoc_neq.
Qed.

(** X10: on a strand that is set to anything but ['+'] and ['-'], such
    as ['.'], [reverse_complement] raises [KeyError] after it has
    changed the seqid and the coordinates: the record is left half
    reversed, with its strand and extra columns as they were. *)
Theorem reverse_complement_unknown_strand get_size self size sd :
  get_size (Py.rstrip_dash (seqid self)) = Ok size →
  seqid self ≠ "" → (start self ≤ end_ self)%Z →
  strand self = Some sd → sd ≠ "" → sd ≠ "+" → sd ≠ "-" →
  ∃ self',
    reverse_complement get_size self = (Raise KeyError, self') ∧
    self' ≠ self ∧
    seqid self' = toggle_marker (seqid self) ∧
    start self' = (size - end_ self + 1)%Z ∧
    end_ self' = (size - start self + 1)%Z ∧
    strand self' = strand self ∧ extra self' = extra self ∧
    accn self' = accn self ∧ score self' = score self.
Proof.
  intros Hsize Hne Hle Hsd H0 H1 H2.
  rewrite (reverse_complement_found _ _ _ Hsize Hne). simpl.
  destruct (Z.leb_spec (size - end_ self + 1) (size - start self + 1)); [|lia].
  rewrite Hsd. destruct sd as [|c t]; [done|]. simpl.
  unfold flip_strand. rewrite !decide_False by done.
  eexists. split; [done|]. simpl. split; [|done].
  intros Heq. apply (f_equal seqid) in Heq. simpl in Heq.
  by apply toggle_marker_neq in Heq.
Qed.

Lemma reverse_complement_unknown_strand_witness :
  let self := mkBedLine "chr1" 11 20 "g1" (Some ["0"; "."]) (Some "0") (Some ".") in
  BedLine_init (tsv ["chr1"; "10"; "20"; "g1"; "0"; "."]) = Ok self ∧
  reverse_complement (one_size "chr1" 100) self =
    (Raise KeyError,
     mkBedLine "chr1-" 81 90 "g1" (Some ["0"; "."]) (Some "0") (Some ".")).
Proof.
  intros self. split; [reflexivity|].
  destruct (reverse_complement_unknown_strand (one_size "chr1" 100) self 100 ".")
    as (self' & Hrc & _ & Hid & Hs & He & Hst & Hex & Ha & Hsc);
    [reflexivity|discriminate|simpl; lia|reflexivity|discriminate..|].
  rewrite Hrc. f_equal. destruct self'. simpl in *. by subst.
Defined.

(** X11: a successful [reverse_complement] leaves the seqid empty
    exactly when the seqid was the bare marker ["-"]; on a record whose
    seqid is empty every call fails and leaves the record as it is, with
    [IndexError] when the size lookup succeeds. *)
Theorem reverse_complement_bare_marker get_size self self1 :
  reverse_complement get_size self = (Ok tt, self1) →
  (seqid self1 = "" ↔ seqid self = "-") ∧
  (seqid self1 = "" →
   ∀ get_size', ∃ e,
     reverse_complement get_size' self1 = (Raise e, self1) ∧
     ∀ size, get_size' "" = Ok size → e = IndexError).
Proof.
  intros H. apply reverse_complement_Ok in H
    as (size & _ & Hne & _ & Hid & _).
  split; [rewrite Hid; by apply toggle_marker_empty|].
  intros Hnil gs.
  unfold reverse_complement, mbind, method_bind, read, eval. simpl.
  rewrite Hnil. change (Py.rstrip_dash "") with "".
  destruct (gs "") as [sz|e]; simpl.
  - exists IndexError. by split.
  - exists e. split; [done|]. by intros ? [=].
Qed.

Lemma reverse_complement_bare_marker_witness :
  let self := mkBedLine "-" 11 20 "g1" None None None in
  let self1 := mkBedLine "" 81 90 "g1" None None None in
  let get_size := λ _ : string, Ok 100%Z in
  BedLine_init (tsv ["-"; "10"; "20"; "g1"]) = Ok self ∧
  reverse_complement get_size self = (Ok tt, self1) ∧
  reverse_complement get_size self1 = (Raise IndexError, self1).
Proof.
  intros self self1 get_size. split; [reflexivity|].
  assert (reverse_complement get_size self = (Ok tt, self1)) as H by reflexivity.
  split; [exact H|].
  destruct (reverse_complement_bare_marker get_size self self1 H) as [_ Hfail].
  destruct (Hfail eq_refl get_size) as (e & -> & He).
  by rewrite (He 100%Z eq_refl).
Defined.

Lemma toggle_marker_single s : single_marker s → single_marker (toggle_marker s).
Proof.
  unfold single_marker, base_seqid, toggle_marker.
  destruct (has_marker s) eqn:Hm; intros [Hne Hb].
  - by rewrite Hb.
  - assert (has_marker (s +:+ "-") = true) as ->.
    { unfold has_marker. by rewrite last_char_snoc. }
    by rewrite drop_last_snoc.
Qed.

(** X12: a successful [reverse_complement] keeps the length of the
    interval and the order of its bounds, the accn and the score, the
    number of extra columns, and the conditions under which the method
    can be applied again: one marker at most, score and strand the first
    two extra columns, a strand unset, ['+'] or ['-']. *)
Theorem reverse_complement_preserves get_size self self1 :
  reverse_complement get_size self = (Ok tt, self1) →
  (end_ self1 - start self1 = end_ self - start self)%Z ∧
  (start self1 ≤ end_ self1)%Z ∧
  accn self1 = accn self ∧ score self1 = score self ∧
  length <$> extra self1 = length <$> extra self ∧
  (single_marker (seqid self) → single_marker (seqid self1)) ∧
  (views_ok self → views_ok self1) ∧
  (strand_ok self → strand_ok self1).
Proof.
  intros H. apply reverse_complement_Ok in H
    as (size & _ & Hne & Hle & Hid & Hs & He & Ha & Hsc & Hstr).
  split; [lia|]. split; [lia|]. split; [done|]. split; [done|].
  assert (length <$> extra self1 = length <$> extra self ∧
          (views_ok self → views_ok self1) ∧
          (strand_ok self → strand_ok self1)) as (? & ? & ?).
  { destruct Hstr as [(Ht & Hs1 & He1)|(sd & sd' & l & Hsd & Hf & Hex & Hl & Hs1 & He1)].
    - unfold views_ok, strand_ok. by rewrite Hs1, He1, Hsc.
    - rewrite He1, Hex. simpl. rewrite length_insert. split; [done|].
      unfold views_ok, strand_ok. rewrite Hs1, He1, Hsc, Hex. simpl. split.
      + intros [Hv _]. split.
        * by rewrite list_lookup_insert_ne.
        * by rewrite list_lookup_insert_eq.
      + intros _. apply flip_strand_Ok in Hf as [[_ ->]|[_ ->]]; auto. }
  split; [done|]. split; [|done].
  rewrite Hid. apply toggle_marker_single.
Qed.

Lemma reverse_complement_preserves_witness :
  let self := mkBedLine "chr1" 11 20 "g1" (Some ["0"; "+"]) (Some "0") (Some "+") in
  let self1 := mkBedLine "chr1-" 81 90 "g1" (Some ["0"; "-"]) (Some "0") (Some "-") in
  reverse_complement (one_size "chr1" 100) self = (Ok tt, self1) ∧
  (end_ self1 - start self1 = end_ self - start self)%Z ∧
  single_marker (seqid self1) ∧ views_ok self1 ∧ strand_ok self1.
Proof.
  intros self self1.
  assert (reverse_complement (one_size "chr1" 100) self = (Ok tt, self1))
    as H by reflexivity.
  split; [exact H|].
  destruct (reverse_complement_preserves _ _ _ H)
    as (Hlen & _ & _ & _ & _ & Hm & Hv & Hs).
  split; [exact Hlen|]. split; [|split].
  - apply Hm. split; [discriminate|reflexivity].
  - apply Hv. split; reflexivity.
  - apply Hs. right. left. reflexivity.
Defined.

(** X13: after a successful [reverse_complement] the record is printed
    with its marker toggled and, in the half-open coordinates of the
    file, the range [a, b) turned into [size - b, size - a); the extra
    columns are printed as before, but for the strand column when the
    strand has been flipped. *)
Theorem print_after_reverse get_size self self1 :
  reverse_complement get_size self = (Ok tt, self1) →
  ∃ size,
    get_size (Py.rstrip_dash (seqid self)) = Ok size ∧
    let a := (start self - 1)%Z in
    let b := end_ self in
    BedLine_str self1 =
      tsv ([toggle_marker (seqid self); Py.str (size - b); Py.str (size - a);
            accn self] ++ default [] (extra self1)) ∧
    (default [] (extra self1) = default [] (extra self) ∨
     ∃ sd sd', strand self = Some sd ∧ flip_strand sd = Ok sd' ∧
               default [] (extra self1) = <[1 := sd']> (default [] (extra self))).
Proof.
  intros H. apply reverse_complement_Ok in H
    as (size & Hsize & Hne & Hle & Hid & Hs & He & Ha & Hsc & Hstr).
  exists size. split; [done|]. simpl. split.
  - rewrite BedLine_str_fields, Hid, Hs, He, Ha. unfold tsv.
    replace (size - end_ self + 1 - 1)%Z with (size - end_ self)%Z by lia.
    replace (size - (start self - 1))%Z with (size - start self + 1)%Z by lia.
    done.
  - destruct Hstr as [(Ht & Hs1 & He1)|(sd & sd' & l & Hsd & Hf & Hex & Hl & Hs1 & He1)].
    + left. by rewrite He1.
    + right. exists sd, sd'. by rewrite He1, Hex.
Qed.

Lemma print_after_reverse_witness :
  let self := mkBedLine "chr1" 11 20 "g1" (Some ["0"; "+"; "x"]) (Some "0") (Some "+") in
  BedLine_init (tsv ["chr1"; "10"; "20"; "g1"; "0"; "+"; "x"]) = Ok self ∧
  ∃ self1,
    reverse_complement (one_size "chr1" 100) self = (Ok tt, self1) ∧
    BedLine_str self1 = tsv ["chr1-"; "80"; "90"; "g1"; "0"; "-"; "x"].
Proof.
  intros self. split; [reflexivity|].
  exists (mkBedLine "chr1-" 81 90 "g1" (Some ["0"; "-"; "x"]) (Some "0") (Some "-")).
  assert (reverse_complement (one_size "chr1" 100) self =
          (Ok tt, mkBedLine "chr1-" 81 90 "g1" (Some ["0"; "-"; "x"])
                    (Some "0") (Some "-"))) as H by reflexivity.
  split; [exact H|].
  destruct (print_after_reverse _ _ _ H) as (size & Hsize & Hstr & _).
  injection Hsize as <-. exact Hstr.
Defined.

(** ** The views of a collection together *)

Lemma Bed_accns_elem bed a :
  a ∈ Bed_accns bed ↔ ∃ b, b ∈ bed ∧ accn b = a.
Proof.
  unfold Bed_accns. rewrite sorted_Permutation, elem_of_elements,
    elem_of_list_to_set, list_elem_of_fmap.
  split; intros (b & ? & ?); by exists b.
Qed.

Lemma Bed_order_dom (bed : list BedLine) :
  dom (Bed_order bed) = list_to_set (accn <$> bed).
Proof.
  apply set_eq. intros a.
  rewrite elem_of_dom, elem_of_list_to_set, list_elem_of_fmap.
  rewrite <- not_eq_None_Some, Bed_order_None. split.
  - intros Hn. destruct (decide (a ∈ accn <$> bed)) as [Hin|Hout].
    + apply list_elem_of_fmap in Hin as (b & -> & Hb). by exists b.
    + destruct Hn. intros f Hf Ha. apply Hout, list_elem_of_fmap. by exists f.
  - intros (b & -> & Hb) Hn. by apply (Hn b).
Qed.

(** X14: [accns] lists, in ascending order and once each, exactly the
    accessions for which [order] has an entry; there are as many of them
    as entries, and no more than records. *)
Theorem accns_are_order_keys (bed : list BedLine) :
  (∀ a, a ∈ Bed_accns bed ↔ is_Some (Bed_order bed !! a)) ∧
  StronglySorted (λ s t, String.le s t ∧ s ≠ t) (Bed_accns bed) ∧
  length (Bed_accns bed) = size (Bed_order bed) ∧
  (size (Bed_order bed) ≤ length bed)%nat.
Proof.
  assert (length (Bed_accns bed) = size (Bed_order bed)) as Hlen.
  { rewrite <- size_dom, Bed_order_dom. unfold Bed_accns.
    by rewrite sorted_Permutation. }
  split; [|split; [|split; [done|]]].
  - intros a. rewrite <- elem_of_dom, Bed_order_dom, elem_of_list_to_set.
    unfold Bed_accns. by rewrite sorted_Permutation, elem_of_elements,
      elem_of_list_to_set.
  - apply StronglySorted_strict; [apply sorted_ascending|].
    unfold Bed_accns. rewrite sorted_Permutation. apply NoDup_elements.
  - rewrite <- Hlen, <- (length_fmap accn bed). apply submseteq_length.
    apply NoDup_submseteq.
    + unfold Bed_accns. rewrite sorted_Permutation. apply NoDup_elements.
    + intros a (b & Hb & <-)%Bed_accns_elem. apply list_elem_of_fmap. by exists b.
Qed.

Lemma Bed_order_lookup (bed : list BedLine) a i f :
  Bed_order bed !! a = Some (i, f) → bed !! i = Some f ∧ accn f = a.
Proof.
  induction bed as [|x l IH] using rev_ind; [done|].
  rewrite Bed_order_snoc. destruct (decide (accn x = a)) as [Hx|Hx].
  - rewrite Hx, lookup_insert_eq. intros [= <- <-].
    split; [by apply list_lookup_middle|done].
  - rewrite lookup_insert_ne by done. intros [Hi Ha]%IH.
    split; [|done]. rewrite lookup_app_l; [done|]. by apply lookup_lt_Some in Hi.
Qed.

Lemma Bed_simple_bed_lookup (bed : list BedLine) i :
  Bed_simple_bed bed !! i = (λ b, (seqid b, i)) <$> bed !! i.
Proof.
  unfold Bed_simple_bed, enumerate.
  rewrite list_lookup_fmap, list_lookup_imap. by destruct (bed !! i).
Qed.

(** X15: [simple_bed] has one pair for each record, the seqid of the
    record with its position; the position that [order] gives for an
    accession is the position of a pair of [simple_bed], the pair of the
    seqid of the record that [order] gives. *)
Theorem simple_bed_positions (bed : list BedLine) :
  length (Bed_simple_bed bed) = length bed ∧
  (∀ i, Bed_simple_bed bed !! i = (λ b, (seqid b, i)) <$> bed !! i) ∧
  (∀ a i f, Bed_order bed !! a = Some (i, f) →
            Bed_simple_bed bed !! i = Some (seqid f, i)) ∧
  (∀ i s j, Bed_simple_bed bed !! i = Some (s, j) →
            j = i ∧ s ∈ Bed_seqids bed).
Proof.
  split; [|split; [|split]].
  - unfold Bed_simple_bed, enumerate. by rewrite length_fmap, length_imap.
  - apply Bed_simple_bed_lookup.
  - intros a i f [Hi _]%Bed_order_lookup.
    by rewrite Bed_simple_bed_lookup, Hi.
  - intros i s j. rewrite Bed_simple_bed_lookup.
    destruct (bed !! i) as [b|] eqn:Hb; [|done]. intros [= <- <-].
    split; [done|]. apply Bed_seqids_elem. exists b. split; [|done].
    by eapply list_elem_of_lookup_2.
Qed.

Lemma StronglySorted_filter {A} (R : A → A → Prop) (P : A → Prop)
    `{∀ x, Decision (P x)} l :
  StronglySorted R l → StronglySorted R (filter P l).
Proof.
  induction 1 as [|x l Hs IH Hx]; [constructor|].
  rewrite filter_cons. case_decide; [|done]. constructor; [done|].
  apply Forall_forall. intros y [_ Hy]%list_elem_of_filter.
  by apply (proj1 (Forall_forall _ _) Hx).
Qed.

(** X16: [sub_beds] gives one group for each seqid of [seqids], in that
    order; a group is never empty, holds the records of its seqid only,
    in an order that is sorted whenever the collection is, and the
    groups hold together as many records as the collection. *)
Theorem sub_beds_groups (bed : list BedLine) :
  (Bed_sub_beds bed).*1 = Bed_seqids bed ∧
  (∀ s g, (s, g) ∈ Bed_sub_beds bed →
          g = Bed_sub_bed bed s ∧ g ≠ [] ∧
          Forall (λ b, seqid b = s) g ∧
          ∀ R : BedLine → BedLine → Prop,
            StronglySorted R bed → StronglySorted R g) ∧
  sum_list (length <$> (Bed_sub_beds bed).*2) = length bed.
Proof.
  split; [|split].
  - unfold Bed_sub_beds. rewrite <- list_fmap_compose. apply list_fmap_id.
  - intros s g. unfold Bed_sub_beds.
    intros (s' & [= -> ->] & Hs)%list_elem_of_fmap.
    split; [done|]. split; [|split].
    + apply Bed_seqids_elem in Hs as (b & Hb & Hsb).
      intros Hnil. assert (b ∈ Bed_sub_bed bed s') as Hin.
      { unfold Bed_sub_bed. by apply list_elem_of_filter. }
      rewrite Hnil in Hin. by apply elem_of_nil in Hin.
    + apply Forall_forall. unfold Bed_sub_bed.
      by intros b [? _]%list_elem_of_filter.
    + intros R. apply StronglySorted_filter.
  - rewrite <- length_join. unfold Bed_sub_beds.
    rewrite <- list_fmap_compose.
    change (snd ∘ λ bs, (bs, Bed_sub_bed bed bs)) with (Bed_sub_bed bed).
    apply Permutation_length. unfold Bed_sub_bed.
    rewrite (groups_Permutation _ _ (Bed_seqids_NoDup bed)).
    rewrite filter_all; [done|]. apply Forall_forall. intros b Hb.
    apply Bed_seqids_elem. by exists b.
Qed.

(** ** The name of the sorted file *)

Lemma after_last_None sep s : after_last sep s = None ↔ no_char sep s.
Proof.
  unfold no_char. induction s as [|a s IH]; [done|]. simpl.
  destruct (after_last sep s) as [t|].
  - split; [done|]. intros [_ Hs]%andb_True. by apply IH in Hs.
  - destruct (Ascii.eqb a sep); simpl; [done|].
    split; [intros _|done]. by apply IH.
Qed.

Lemma after_last_Some sep s t : after_last sep s = Some t → no_char sep t.
Proof.
  revert t. induction s as [|a s IH]; intros t; [done|]. simpl.
  destruct (after_last sep s) as [t'|] eqn:Ht.
  - intros [= <-]. by apply IH.
  - destruct (Ascii.eqb a sep); [|done]. intros [= <-].
    by apply after_last_None.
Qed.

Lemma before_last_None sep s : before_last sep s = None → no_char sep s.
Proof.
  unfold no_char. induction s as [|a s IH]; [done|]. simpl.
  destruct (before_last sep s); [done|].
  destruct (Ascii.eqb a sep); [done|]. intros _. by apply IH.
Qed.

Lemma before_last_Some sep s h :
  before_last sep s = Some h →
  ∃ t, s = h +:+ String sep t ∧ no_char sep t.
Proof.
  revert h. induction s as [|a s IH]; intros h; [done|]. simpl.
  destruct (before_last sep s) as [h'|] eqn:Hh.
  - intros [= <-]. destruct (IH h' eq_refl) as (t & -> & Ht). by exists t.
  - destruct (Ascii.eqb_spec a sep) as [->|]; [|done]. intros [= <-].
    exists s. split; [done|]. by apply before_last_None.
Qed.

Lemma no_char_app_l c (s t : string) : no_char c (s +:+ t) → no_char c s.
Proof.
  unfold no_char. induction s as [|a s IH]; [done|].
  rewrite app_String. simpl. intros [Ha Hs]%andb_True.
  apply andb_True. split; [done|]. by apply IH.
Qed.

(** X17: with [--inplace] the [sort] command writes to its input; without
    it the name it writes to and returns is the base name of the input
    with its last extension replaced by [.sorted.bed]: a name without
    directory, that is never the name of the input. *)
Theorem sort_output_name bedfile accn :
  (sort_command bedfile true accn).2 = bedfile ∧
  let out := (sort_command bedfile false accn).2 in
  out = rsplit_dot_head (basename bedfile) +:+ ".sorted.bed" ∧
  no_char "/" out ∧ out ≠ bedfile.
Proof.
  split; [done|]. simpl.
  assert (no_char "/" (rsplit_dot_head (basename bedfile) +:+ ".sorted.bed"))
    as Hslash.
  { apply no_char_app; [|done].
    assert (no_char "/" (basename bedfile)) as Hb.
    { unfold basename. destruct (after_last "/" bedfile) as [t|] eqn:Ht.
      - by apply after_last_Some in Ht.
      - by apply after_last_None. }
    unfold rsplit_dot_head.
    destruct (before_last "." (basename bedfile)) as [h|] eqn:Hh; [|done].
    apply before_last_Some in Hh as (t & Heq & _). rewrite Heq in Hb.
    by apply no_char_app_l in Hb. }
  split; [done|]. split; [done|].
  intros Heq. rewrite Heq in Hslash.
  assert (basename bedfile = bedfile) as Hbase.
  { unfold basename. by apply after_last_None in Hslash as ->. }
  rewrite Hbase in Heq. unfold rsplit_dot_head in Heq.
  destruct (before_last "." bedfile) as [h|] eqn:Hh; simpl in Heq.
  - apply before_last_Some in Hh as (t & Hb & Ht).
    rewrite Hb in Heq. apply String.app_inj in Heq.
    injection Heq as <-. done.
  - by apply app_id_inv in Heq.
Qed.

Example sort_output_name_example :
  sort_command "data/genes.v2.bed" false true =
    ("sort -k4,4 -k1,1 -k2,2n data/genes.v2.bed -o genes.v2.sorted.bed",
     "genes.v2.sorted.bed") ∧
  (sort_command "reads" false false).2 = "reads.sorted.bed" ∧
  (sort_command "a.sorted.bed" false false).2 = "a.sorted.sorted.bed".
Proof. repeat split. Qed.

(** ** Loading, writing and loading again *)

Lemma lstrip_with_snoc p s c :
  p c = true →
  Py.lstrip_with p (s +:+ String c "") =
    match Py.lstrip_with p s with
    | "" => ""
    | t => t +:+ String c ""
    end.
Proof.
  intros Hc. induction s as [|a s IH]; [by simpl; rewrite Hc|].
  rewrite app_String. simpl. destruct (p a); [done|]. by rewrite app_String.
Qed.

Lemma strip_snoc_blank s c :
  Ascii.is_space c = true → Py.strip (s +:+ String c "") = Py.strip s.
Proof.
  intros Hc. unfold Py.strip. rewrite lstrip_with_snoc by done.
  destruct (Py.lstrip_with Ascii.is_space s) as [|a t]; [done|].
  by apply rstrip_with_snoc.
Qed.

Lemma no_char_lstrip c p s : no_char c s → no_char c (Py.lstrip_with p s).
Proof.
  unfold no_char. induction s as [|a s IH]; [done|]. simpl.
  intros [Ha Hs]%andb_True. destruct (p a); [by apply IH|].
  simpl. apply andb_True. by split.
Qed.

Lemma no_char_rstrip c p s : no_char c s → no_char c (Py.rstrip_with p s).
Proof.
  unfold no_char. induction s as [|a s IH]; [done|]. simpl.
  intros [Ha Hs]%andb_True. specialize (IH Hs).
  destruct (Py.rstrip_with p s) as [|b r].
  - destruct (p a); [done|]. simpl. apply andb_True. by split.
  - change (Is_true (negb (Ascii.eqb a c) &&
              Py.all_chars (λ a0, negb (Ascii.eqb a0 c)) (String b r))).
    apply andb_True. by split.
Qed.

Lemma no_char_split c sep s :
  no_char c s → Forall (λ x, no_char c x) (Py.split sep s).
Proof.
  unfold no_char. induction s as [|a s IH]; [by repeat constructor|]. simpl.
  intros [Ha Hs]%andb_True. specialize (IH Hs).
  destruct (Ascii.eqb a sep); [by constructor|].
  destruct (Py.split sep s) as [|w ws].
  - constructor; [|done]. simpl. apply andb_True. by split.
  - apply Forall_cons in IH as [Hw Hws]. constructor; [|done].
    simpl. apply andb_True. by split.
Qed.

(** A line of a file holds no end of line but its last character. *)
Lemma file_lines_body content :
  Forall (λ line, ∃ body, no_char nl body ∧
                          (line = body ∨ line = body +:+ String nl ""))
    (file_lines content).
Proof.
  induction content as [|a s IH]; simpl; [constructor|].
  destruct (Ascii.eqb_spec a nl) as [->|Ha].
  - constructor; [|done]. exists "". split; [done|]. by right.
  - assert (no_char nl (String a "")) as Hna.
    { unfold no_char. simpl. apply andb_True. split; [|done].
      apply negb_True. by intros ?%Is_true_true%Ascii.eqb_eq. }
    destruct (file_lines s) as [|l ls]; [|apply Forall_cons in IH as [Hl Hls]].
    + constructor; [|done]. exists (String a ""). split; [done|]. by left.
    + constructor; [|done]. destruct Hl as (body & Hb & Hl).
      exists (String a body). split.
      * by apply (no_char_app _ (String a "") body).
      * destruct Hl as [->| ->]; [by left|by right].
Qed.

Lemma split_line_no_nl line body :
  no_char nl body → line = body ∨ line = body +:+ String nl "" →
  Forall (λ x, no_char nl x) (split_line line).
Proof.
  intros Hb Hl. unfold split_line. apply no_char_split.
  assert (Py.strip line = Py.strip body) as ->.
  { destruct Hl as [->| ->]; [done|]. by apply strip_snoc_blank. }
  unfold Py.strip. by apply no_char_rstrip, no_char_lstrip.
Qed.

Lemma parsed_no_nl line r :
  Forall (λ x, no_char nl x) (split_line line) →
  BedLine_init line = Ok r →
  Forall (λ x, no_char nl x) (text_fields r).
Proof.
  intros Hf (sid & s1 & s2 & acc & rest & a & b & Hc & _ & _ & _ & ->)%BedLine_init_Ok_inv.
  rewrite Hc in Hf. unfold text_fields. simpl.
  apply Forall_cons in Hf as [Hsid Hf]. apply Forall_cons in Hf as [_ Hf].
  apply Forall_cons in Hf as [_ Hf]. apply Forall_cons in Hf as [Hacc Hf].
  constructor; [done|]. constructor; [done|]. by destruct rest.
Qed.

Lemma load_file_no_nl lines recs :
  Forall (λ line, ∃ body, no_char nl body ∧
                          (line = body ∨ line = body +:+ String nl "")) lines →
  load_lines lines = Ok recs →
  Forall (λ r, Forall (λ x, no_char nl x) (text_fields r)) recs.
Proof.
  intros Hl. revert recs.
  induction Hl as [|line lines (body & Hb & Hline) Hlines IH]; intros recs.
  - by intros [= <-].
  - destruct line as [|c t]; [done|].
    rewrite load_lines_cons by done.
    destruct (is_comment (String c t)); [apply IH|].
    destruct (BedLine_init (String c t)) as [r|] eqn:Hr; simpl; [|done].
    destruct (load_lines lines) as [rs|]; simpl; [|done].
    intros [= <-]. constructor; [|by apply IH].
    eapply parsed_no_nl; [|done]. by eapply split_line_no_nl.
Qed.

(** X18: a collection loaded from a file under a key with a total
    preorder, none of whose seqids starts with [#], is loaded again as
    the same collection from what [print_to_file] writes for it. *)
Theorem load_print_load {K} (leb : K → K → bool) key content filename bed :
  (∀ a b, leb a b ∨ leb b a) →
  (∀ a b c, leb a b → leb b c → leb a c) →
  Bed_init leb (λ _, Ok (file_lines content)) (Some filename) key = Ok bed →
  Forall (λ r, is_comment (seqid r) = false) bed →
  Bed_init leb (λ _, Ok (file_lines (Bed_print_to_file bed)))
    (Some filename) key = Ok bed.
Proof.
  intros Htot Htrans Hinit Hhash.
  assert (Forall storable bed) as Hst.
  { pose proof Hinit as (recs & Hrecs & ->)%Bed_init_Ok.
    unfold loaded in Hrecs. destruct (Py.truthy (Some filename)); cycle 1.
    { subst recs. constructor. }
    destruct Hrecs as (lines & [= <-] & Hload).
    pose proof (load_lines_printable _ _ Hload) as Hp.
    pose proof (load_file_no_nl _ _ (file_lines_body content) Hload) as Hn.
    rewrite sort_by_Permutation in Hhash |- *.
    apply Forall_forall. intros r Hr. split; [|split].
    - by apply (proj1 (Forall_forall _ _) Hp).
    - by apply (proj1 (Forall_forall _ _) Hn).
    - by apply (proj1 (Forall_forall _ _) Hhash). }
  pose proof (load_written bed Hst) as Hload.
  assert (StronglySorted (λ x y, leb (key x) (key y)) bed) as Hsorted.
  { apply Bed_init_Ok in Hinit as (recs & _ & ->). by apply sort_by_sorted. }
  unfold Bed_init in *. destruct (Py.truthy (Some filename)); [|done].
  simpl. rewrite Hload. simpl. by rewrite sort_by_sorted_id.
Qed.

Lemma load_print_load_witness :
  let content :=
    file_line ["chr2"; "0100"; "200"; "g1"; "0"; "+"] +:+
    file_line ["# genes of chr1"] +:+
    file_line [" chr1"; "50"; "80"; "g2"] +:+
    tsv ["chr1"; "10"; "20"; "g3"] in
  let bed := [mkBedLine "chr1" 11 20 "g3" None None None;
              mkBedLine "chr1" 51 80 "g2" None None None;
              mkBedLine "chr2" 101 200 "g1" (Some ["0"; "+"]) (Some "0") (Some "+")] in
  Bed_init_default (λ _, Ok (file_lines content)) (Some "genes.bed") = Ok bed ∧
  Forall (λ r, is_comment (seqid r) = false) bed ∧
  Bed_init_default (λ _, Ok (file_lines (Bed_print_to_file bed)))
    (Some "genes.bed") = Ok bed.
Proof.
  intros content bed.
  assert (Bed_init_default (λ _, Ok (file_lines content)) (Some "genes.bed")
          = Ok bed) as H by reflexivity.
  assert (Forall (λ r, is_comment (seqid r) = false) bed) as Hc
    by (repeat constructor).
  split; [exact H|]. split; [exact Hc|].
  apply (load_print_load tuple_leb default_key content "genes.bed" bed
           tuple_leb_total tuple_leb_trans H Hc).
Defined.

(** A record whose seqid starts with [#] can be loaded, from a line that
    starts with a blank, but the line written for it is skipped. *)
Example written_comment_is_lost :
  let line := file_line [" #chr1"; "10"; "20"; "g1"] in
  let r := mkBedLine "#chr1" 11 20 "g1" None None None in
  load_lines [line] = Ok [r] ∧
  load_lines (file_lines (Bed_print_to_file [r])) = Ok [].
Proof. split; reflexivity. Qed.
